(** * Locator inference engine: a shallow embedding

    This development embeds the heuristic DOM analysis of
    [backend/src/controllers/pomPageController.ts] (second half of the file:
    [cleanText], [generateVarName], [generateRelativeXPath], [generateLocator],
    [evaluateXpath], [getAbsoluteXPath], [analyzeDomAndGenerateSchema]) and
    proves properties of the locator resolver, the page-name deriver and the
    test-flow synthesizer.

    Conventions.
    - A JavaScript string is a [string]; its characters are read as ASCII
      code units, and the character classes of the regular expressions
      ([\s], [\d], [[a-z0-9]], ...) are the ASCII ones.
    - A parsed document is a tree of [Node]s; a DOM element handle is the
      path of child indices that leads to it from the root element
      ([NodeRef]), so that JavaScript's [===] on nodes is equality of paths.
    - The selector engines of the platform ([querySelectorAll],
      [document.evaluate]), its URL parser and its HTML parser are not code
      of the program: they are the fields of a [Browser] record over which
      every general theorem is quantified.  [Mini.browser] is an executable
      instance for a documented fragment, used to run the program on
      concrete pages.
    - A thrown exception is the outcome [Throws]; the two sources of
      randomness ([Math.random], [crypto.randomUUID]) are read from an
      [Entropy] record through a counter threaded in the [World]. *)

From Stdlib Require Import String Ascii List Bool Arith Lia.
From Stdlib Require Import Numbers.DecimalString Numbers.DecimalNat Init.Decimal.
Import ListNotations.
Open Scope list_scope.
Open Scope string_scope.

Set Implicit Arguments.

(* ================================================================== *)
(** * JavaScript string primitives *)
(* ================================================================== *)

Module JS.

Definition code (c : ascii) : nat := nat_of_ascii c.

Definition between (lo hi : nat) (c : ascii) : bool :=
  (lo <=? code c)%nat && (code c <=? hi)%nat.

(** [\d] *)
Definition isDigit (c : ascii) : bool := between 48 57 c.
(** [[A-Z]] *)
Definition isUpper (c : ascii) : bool := between 65 90 c.
(** [[a-z]] *)
Definition isLower (c : ascii) : bool := between 97 122 c.
(** [\s]: tab, line feed, vertical tab, form feed, carriage return, space *)
Definition isSpace (c : ascii) : bool := between 9 13 c || (code c =? 32)%nat.
(** [[a-z0-9]] *)
Definition isLowerAlnum (c : ascii) : bool := isLower c || isDigit c.
(** [[a-zA-Z0-9]] *)
Definition isAlnum (c : ascii) : bool := isLower c || isUpper c || isDigit c.

Definition lowerChar (c : ascii) : ascii :=
  if isUpper c then ascii_of_nat (code c + 32) else c.
Definition upperChar (c : ascii) : ascii :=
  if isLower c then ascii_of_nat (code c - 32) else c.

Fixpoint mapChars (f : ascii -> ascii) (s : string) : string :=
  match s with
  | EmptyString => EmptyString
  | String c s' => String (f c) (mapChars f s')
  end.

Fixpoint filterChars (keep : ascii -> bool) (s : string) : string :=
  match s with
  | EmptyString => EmptyString
  | String c s' =>
      if keep c then String c (filterChars keep s') else filterChars keep s'
  end.

Fixpoint existsChar (p : ascii -> bool) (s : string) : bool :=
  match s with
  | EmptyString => false
  | String c s' => p c || existsChar p s'
  end.

Fixpoint forallChar (p : ascii -> bool) (s : string) : bool :=
  match s with
  | EmptyString => true
  | String c s' => p c && forallChar p s'
  end.

(** [s.toLowerCase()], [s.toUpperCase()] *)
Definition toLowerCase : string -> string := mapChars lowerChar.
Definition toUpperCase : string -> string := mapChars upperChar.

(** A string is truthy when it is not empty. *)
Definition truthy (s : string) : bool :=
  match s with EmptyString => false | _ => true end.

Fixpoint dropWhile (p : ascii -> bool) (s : string) : string :=
  match s with
  | EmptyString => EmptyString
  | String c s' => if p c then dropWhile p s' else s
  end.

Fixpoint rev (s : string) : string :=
  match s with
  | EmptyString => EmptyString
  | String c s' => rev s' ++ String c EmptyString
  end.

Definition dropWhileEnd (p : ascii -> bool) (s : string) : string :=
  rev (dropWhile p (rev s)).

(** [s.trim()] *)
Definition trim (s : string) : string :=
  dropWhileEnd isSpace (dropWhile isSpace s).

(** [s.replace(/\s+/g, ' ')]: every maximal run of white space becomes
    one space.  [inRun] tells that the previous character was white. *)
Fixpoint collapseSpaces (inRun : bool) (s : string) : string :=
  match s with
  | EmptyString => EmptyString
  | String c s' =>
      if isSpace c
      then if inRun then collapseSpaces true s'
           else String " " (collapseSpaces true s')
      else String c (collapseSpaces false s')
  end.

(** [s.startsWith(p)], [s.endsWith(p)], [s.includes(p)] *)
Definition startsWith (s p : string) : bool := String.prefix p s.
Definition endsWith (s p : string) : bool := String.prefix (rev p) (rev s).
Fixpoint includes (s sub : string) : bool :=
  String.prefix sub s ||
  match s with
  | EmptyString => false
  | String _ s' => includes s' sub
  end.

(** [s.substring(0, n)] and [s.slice(1)] *)
Definition substring0 (n : nat) (s : string) : string := String.substring 0 n s.
Definition slice1 (s : string) : string :=
  match s with EmptyString => EmptyString | String _ s' => s' end.
(** [s.charAt(0)] *)
Definition charAt0 (s : string) : string :=
  match s with EmptyString => EmptyString | String c _ => String c EmptyString end.

(** [s.split(sep)] for a separator that is one character of the class
    [isSep]: the pieces between separators, empty pieces included. *)
Fixpoint splitOn (isSep : ascii -> bool) (cur : string) (s : string) : list string :=
  match s with
  | EmptyString => [rev cur]
  | String c s' =>
      if isSep c then rev cur :: splitOn isSep EmptyString s'
      else splitOn isSep (String c cur) s'
  end.

(** [s.split(/\s+/)]: the separators are the maximal runs of white
    space; a leading or trailing run leaves an empty piece. *)
Fixpoint splitSpaces (inRun : bool) (cur : string) (s : string) : list string :=
  match s with
  | EmptyString => if inRun then [EmptyString] else [rev cur]
  | String c s' =>
      if isSpace c
      then if inRun then splitSpaces true EmptyString s'
           else rev cur :: splitSpaces true EmptyString s'
      else splitSpaces false (String c (if inRun then EmptyString else cur)) s'
  end.

(** [s.split(/(?=[A-Z])/).join('_')]: an underscore goes before every
    upper-case letter that is not the first character. *)
Fixpoint underscoreBeforeUpper (first : bool) (s : string) : string :=
  match s with
  | EmptyString => EmptyString
  | String c s' =>
      if isUpper c && negb first
      then String "_" (String c (underscoreBeforeUpper false s'))
      else String c (underscoreBeforeUpper false s')
  end.

(** [ls.join('')] *)
Definition join (sep : string) (ls : list string) : string := String.concat sep ls.

(** The one-character string that holds a double quote. *)
Definition dquote : string := String (ascii_of_nat 34) EmptyString.

(** A number in a template literal. *)
Definition ofNat (n : nat) : string := NilEmpty.string_of_uint (Nat.to_uint n).

(** [ls.slice(0, n)] *)
Definition take {A} (n : nat) (ls : list A) : list A := firstn n ls.

(** [ls.includes(x)] on a list of strings *)
Definition listIncludes (ls : list string) (x : string) : bool :=
  existsb (String.eqb x) ls.

End JS.

(* ================================================================== *)
(** * The document object model *)
(* ================================================================== *)

(** A node of a parsed HTML document: an element with its local name (lower
    case, as the HTML parser stores it), its attributes in source order and
    its child nodes, or a text node with its character data. *)
#[warnings="-register-all"]
Inductive Node : Type :=
| Element (localName : string) (attributes : list (string * string))
          (childNodes : list Node)
| Text (data : string).

(** The document: its root ([html]) element. *)
Record Document : Type := { documentElement : Node }.

(** An element handle: the child indices from the root element down. *)
Definition NodeRef : Type := list nat.

Module DOM.

Definition refEqb (a b : NodeRef) : bool :=
  if list_eq_dec Nat.eq_dec a b then true else false.

Fixpoint nodeAt (n : Node) (p : NodeRef) : option Node :=
  match p with
  | [] => Some n
  | i :: p' =>
      match n with
      | Element _ _ cs =>
          match nth_error cs i with
          | Some c => nodeAt c p'
          | None => None
          end
      | Text _ => None
      end
  end.

Definition lookup (doc : Document) (el : NodeRef) : option Node :=
  nodeAt (documentElement doc) el.

Definition isElement (n : Node) : bool :=
  match n with Element _ _ _ => true | Text _ => false end.

Definition nodeName (n : Node) : string :=
  match n with Element t _ _ => t | Text _ => EmptyString end.

Definition nodeAttributes (n : Node) : list (string * string) :=
  match n with Element _ a _ => a | Text _ => [] end.

Definition nodeChildren (n : Node) : list Node :=
  match n with Element _ _ cs => cs | Text _ => [] end.

(** [node.textContent]: the data of all text descendants, in order. *)
Fixpoint nodeText (n : Node) : string :=
  match n with
  | Text d => d
  | Element _ _ cs =>
      (fix go (cs : list Node) : string :=
         match cs with
         | [] => EmptyString
         | c :: cs' => nodeText c ++ go cs'
         end) cs
  end.

Definition localName (doc : Document) (el : NodeRef) : string :=
  match lookup doc el with Some n => nodeName n | None => EmptyString end.

(** [el.tagName]: upper case for the elements of an HTML document. *)
Definition tagName (doc : Document) (el : NodeRef) : string :=
  JS.toUpperCase (localName doc el).

Fixpoint assoc (k : string) (l : list (string * string)) : option string :=
  match l with
  | [] => None
  | (k', v) :: l' => if String.eqb k' k then Some v else assoc k l'
  end.

(** [el.getAttribute(name)]; [None] is JavaScript's [null]. *)
Definition getAttribute (doc : Document) (el : NodeRef) (name : string)
  : option string :=
  match lookup doc el with
  | Some n => assoc name (nodeAttributes n)
  | None => None
  end.

(** [null] and the empty string are both falsy: every use the program
    makes of an attribute value ([v && ...], [v || ...]) reads it through
    this coercion. *)
Definition orEmpty (v : option string) : string :=
  match v with Some s => s | None => EmptyString end.

(** [el.id]: the reflected [id] attribute, the empty string when absent. *)
Definition idOf (doc : Document) (el : NodeRef) : string :=
  orEmpty (getAttribute doc el "id").

(** [el.textContent] *)
Definition textContent (doc : Document) (el : NodeRef) : string :=
  match lookup doc el with Some n => nodeText n | None => EmptyString end.

Definition childNodes (doc : Document) (el : NodeRef) : list Node :=
  match lookup doc el with Some n => nodeChildren n | None => [] end.

(** The last index of a path and the path before it. *)
Definition unsnoc (p : NodeRef) : option (NodeRef * nat) :=
  match List.rev p with
  | [] => None
  | i :: rp => Some (List.rev rp, i)
  end.

(** [el.parentElement]: the root element has none (its parent is the
    document node). *)
Definition parentElement (el : NodeRef) : option NodeRef :=
  match unsnoc el with Some (p, _) => Some p | None => None end.

(** The handles of the element children among the first [n] child nodes
    of [parent], nearest to position [n] first. *)
Fixpoint elementsBefore (parent : NodeRef) (cs : list Node) (n : nat)
  : list NodeRef :=
  match n with
  | O => []
  | S j =>
      match nth_error cs j with
      | Some c =>
          if isElement c
          then (parent ++ [j])%list :: elementsBefore parent cs j
          else elementsBefore parent cs j
      | None => elementsBefore parent cs j
      end
  end.

(** The chain [el.previousElementSibling],
    [el.previousElementSibling.previousElementSibling], ... *)
Definition previousElementSiblings (doc : Document) (el : NodeRef)
  : list NodeRef :=
  match unsnoc el with
  | Some (p, i) => elementsBefore p (childNodes doc p) i
  | None => []
  end.

(** [parent.children]: the element children, in order. *)
Definition children (doc : Document) (parent : NodeRef) : list NodeRef :=
  List.rev (elementsBefore parent (childNodes doc parent)
              (List.length (childNodes doc parent))).

(** The handles of all elements below (and including) a node, in
    document order. *)
Fixpoint elementsFrom (here : NodeRef) (n : Node) : list NodeRef :=
  match n with
  | Text _ => []
  | Element _ _ cs =>
      here ::
      (fix go (i : nat) (cs : list Node) : list NodeRef :=
         match cs with
         | [] => []
         | c :: cs' => (elementsFrom (here ++ [i])%list c ++ go (S i) cs')%list
         end) 0 cs
  end.

Definition allElements (doc : Document) : list NodeRef :=
  elementsFrom [] (documentElement doc).

(** [doc.getElementsByTagName(tag)] *)
Definition getElementsByTagName (doc : Document) (tag : string)
  : list NodeRef :=
  if String.eqb tag "*" then allElements doc
  else filter (fun r => String.eqb (localName doc r) (JS.toLowerCase tag))
              (allElements doc).

(** ASCII white space of the HTML standard (no vertical tab). *)
Definition isHtmlSpace (c : ascii) : bool :=
  JS.isSpace c && negb (JS.code c =? 11)%nat.

Fixpoint collapseHtmlSpaces (inRun : bool) (s : string) : string :=
  match s with
  | EmptyString => EmptyString
  | String c s' =>
      if isHtmlSpace c
      then if inRun then collapseHtmlSpaces true s'
           else String " " (collapseHtmlSpaces true s')
      else String c (collapseHtmlSpaces false s')
  end.

(** The data of the text children of a node. *)
Fixpoint childText (cs : list Node) : string :=
  match cs with
  | [] => EmptyString
  | Text d :: cs' => d ++ childText cs'
  | Element _ _ _ :: cs' => childText cs'
  end.

(** [doc.title]: the child text content of the first [title] element in
    tree order, white space stripped and collapsed; empty without one. *)
Definition title (doc : Document) : string :=
  match getElementsByTagName doc "title" with
  | t :: _ =>
      JS.dropWhileEnd isHtmlSpace
        (JS.dropWhile isHtmlSpace
           (collapseHtmlSpaces false (childText (childNodes doc t))))
  | [] => EmptyString
  end.

(** The [type] property of an [input] element reflects the attribute
    limited to the known keywords, matched without regard to case; the
    missing and the invalid value default to [text]. *)
Definition inputTypes : list string :=
  ["hidden"; "text"; "search"; "tel"; "url"; "email"; "password"; "date";
   "month"; "week"; "time"; "datetime-local"; "number"; "range"; "color";
   "checkbox"; "radio"; "file"; "submit"; "image"; "reset"; "button"].

Definition inputType (doc : Document) (el : NodeRef) : string :=
  let t := JS.toLowerCase (orEmpty (getAttribute doc el "type")) in
  if JS.listIncludes inputTypes t then t else "text".

End DOM.

(* ================================================================== *)
(** * Exceptions, the platform and the sources of randomness *)
(* ================================================================== *)

Inductive Exception : Type :=
| SyntaxError   (* a selector that does not parse *)
| TypeError     (* an invalid URL, an XPath result of the wrong type *)
| DOMError.     (* any other exception of the platform *)

Inductive Outcome (A : Type) : Type :=
| Returns (a : A)
| Throws (e : Exception).
Arguments Returns {A} a.
Arguments Throws {A} e.

(** The object [new URL(url)] as far as the program reads it. *)
Record URL : Type := { pathname : string }.

(** The platform functions the program calls with a string it has built.
    [evaluate doc xpath] is
    [doc.evaluate(xpath, doc, null, XPathResult.ORDERED_NODE_SNAPSHOT_TYPE, null)],
    the snapshot given as the list of its items in document order. *)
Record Browser : Type := {
  parseFromString : string -> Document;
  newURL : string -> Outcome URL;
  querySelectorAll : Document -> string -> Outcome (list NodeRef);
  evaluate : Document -> string -> Outcome (list NodeRef)
}.

(** The [n]-th value of [Math.floor(Math.random() * 1000)] and the [n]-th
    value of [crypto.randomUUID()]. *)
Record Entropy : Type := {
  randomBelow1000 : nat -> nat;
  randomUUID : nat -> string
}.

(** How many values of each kind have been drawn so far. *)
Record World : Type := { randomCalls : nat; uuidCalls : nat }.

Definition startWorld : World := {| randomCalls := 0; uuidCalls := 0 |}.

(** Computations that draw random values and may throw. *)
Definition M (A : Type) : Type := World -> Outcome (A * World).

Definition ret {A} (a : A) : M A := fun w => Returns (a, w).

Definition bind {A B} (m : M A) (k : A -> M B) : M B :=
  fun w =>
    match m w with
    | Returns (a, w') => k a w'
    | Throws e => Throws e
    end.

Definition lift {A} (o : Outcome A) : M A :=
  fun w =>
    match o with
    | Returns a => Returns (a, w)
    | Throws e => Throws e
    end.

Declare Scope m_scope.
Delimit Scope m_scope with M.
Notation "x <- m ;; k" := (bind m (fun x => k))
  (at level 100, m at next level, right associativity) : m_scope.

Definition drawRandom (E : Entropy) : M nat :=
  fun w => Returns (randomBelow1000 E (randomCalls w),
                    {| randomCalls := S (randomCalls w); uuidCalls := uuidCalls w |}).

Definition drawUUID (E : Entropy) : M string :=
  fun w => Returns (randomUUID E (uuidCalls w),
                    {| randomCalls := randomCalls w; uuidCalls := S (uuidCalls w) |}).

(** [xs.forEach(x => ...)] for a callback that updates the array [acc]. *)
Fixpoint forEach {A S} (xs : list A) (body : S -> A -> M S) (acc : S) : M S :=
  match xs with
  | [] => ret acc
  | x :: xs' => bind (body acc x) (forEach xs' body)
  end.

(** [xs.map(f)] for an [f] that draws random values. *)
Fixpoint mapM {A B} (f : A -> M B) (xs : list A) : M (list B) :=
  match xs with
  | [] => ret []
  | x :: xs' => bind (f x) (fun y => bind (mapM f xs') (fun ys => ret (y :: ys)))
  end.

(* ================================================================== *)
(** * The data handed outward *)
(* ================================================================== *)

(** [LocatorType] of the project model. *)
Module LocatorType.
Inductive t : Type :=
| id | css | xpath | name | className | linkText | partialLinkText | tagName.
End LocatorType.

(** The value [generateLocator] returns. *)
Record Locator : Type := {
  type : LocatorType.t;
  value : string;
  score : nat
}.

Record ElementDefinition : Type := {
  el_id : string;
  el_name : string;
  el_locatorType : LocatorType.t;
  el_locatorValue : string;
  el_description : string
}.

Record PageDefinition : Type := {
  pg_id : string;
  pg_name : string;
  pg_elements : list ElementDefinition
}.

Inductive Action : Type := navigate | click | input | assert_text | assert_visible.
Inductive TestType : Type := smoke | regression.

(** [st_value] is [None] where the program leaves [value] undefined. *)
Record TestStep : Type := {
  st_id : string;
  st_action : Action;
  st_value : option string;
  st_description : string
}.

Record TestCase : Type := {
  tc_id : string;
  tc_name : string;
  tc_type : TestType;
  tc_steps : list TestStep
}.

(** The [Partial<AutomationProject>] that the analysis returns. *)
Record Project : Type := {
  pages : list PageDefinition;
  tests : list TestCase
}.

(* ================================================================== *)
(** * The program *)
(* ================================================================== *)

Definition ATTRIBUTE_PRIORITY : list string :=
  ["id"; "name"; "data-testid"; "data-test"; "data-cy"; "placeholder";
   "aria-label"; "title"; "alt"; "class"].

Definition INTERACTIVE_TAGS : list string :=
  ["input"; "button"; "a"; "select"; "textarea"].

(** [cleanText]: [null] arrives here as the empty string. *)
Definition cleanText (text : string) : string :=
  if negb (JS.truthy text) then EmptyString
  else JS.trim (JS.collapseSpaces false text).

Definition isUnderscore (c : ascii) : bool := Ascii.eqb c "_".

(** [base.toLowerCase().replace(/[^a-z0-9]/g, '_').replace(/^_+|_+$/g, '')] *)
Definition varNameOf (base : string) : string :=
  JS.dropWhileEnd isUnderscore
    (JS.dropWhile isUnderscore
       (JS.mapChars (fun c => if JS.isLowerAlnum c then c else "_"%char)
          (JS.toLowerCase base))).

Section Program.

Variable B : Browser.
Variable E : Entropy.

Local Open Scope m_scope.

Definition generateVarName (base tag : string) : M string :=
  let name := varNameOf base in
  name <- (if negb (JS.truthy name)
           then r <- drawRandom E ;; ret ("element_" ++ JS.ofNat r)
           else ret name) ;;
  ret (name ++ "_" ++ tag).

(** [evaluateXpath]: the length of the snapshot, 0 when the evaluation
    throws. *)
Definition evaluateXpath (xpath : string) (doc : Document) : nat :=
  match evaluate B doc xpath with
  | Returns result => List.length result
  | Throws _ => 0
  end.

Record Relative : Type := { rel_value : string; rel_score : nat }.

Definition anchorXpathOf (doc : Document) (sib : NodeRef) (text : string) : string :=
  "//" ++ JS.toLowerCase (DOM.tagName doc sib)
       ++ "[normalize-space()='" ++ text ++ "']".

(** The loop over the preceding siblings, nearest first. *)
Fixpoint precedingSiblingAnchor (doc : Document) (tag : string)
         (siblings : list NodeRef) : option Relative :=
  match siblings with
  | [] => None
  | sibling :: rest =>
      let text := cleanText (DOM.textContent doc sibling) in
      if JS.truthy text && (2 <? String.length text)%nat then
        let anchorXpath := anchorXpathOf doc sibling text in
        if (evaluateXpath anchorXpath doc =? 1)%nat then
          let relativeXpath := anchorXpath ++ "/following-sibling::" ++ tag in
          if (evaluateXpath relativeXpath doc =? 1)%nat
          then Some {| rel_value := relativeXpath; rel_score := 95 |}
          else precedingSiblingAnchor doc tag rest
        else precedingSiblingAnchor doc tag rest
      else precedingSiblingAnchor doc tag rest
  end.

(** The loop over the other children of the parent. *)
Fixpoint parentChildAnchor (doc : Document) (tag : string)
         (siblings : list NodeRef) : option Relative :=
  match siblings with
  | [] => None
  | sib :: rest =>
      let text := cleanText (DOM.textContent doc sib) in
      if JS.truthy text && (2 <? String.length text)%nat
         && (String.length text <? 50)%nat then
        let anchorXpath := anchorXpathOf doc sib text in
        if (evaluateXpath anchorXpath doc =? 1)%nat then
          let relativeXpath := anchorXpath ++ "/..//" ++ tag in
          if (evaluateXpath relativeXpath doc =? 1)%nat
          then Some {| rel_value := relativeXpath; rel_score := 92 |}
          else parentChildAnchor doc tag rest
        else parentChildAnchor doc tag rest
      else parentChildAnchor doc tag rest
  end.

Definition generateRelativeXPath (el : NodeRef) (doc : Document)
  : option Relative :=
  let tag := JS.toLowerCase (DOM.tagName doc el) in
  (* 1. Preceding Sibling with Text *)
  match precedingSiblingAnchor doc tag (DOM.previousElementSiblings doc el) with
  | Some r => Some r
  | None =>
      (* 2. Parent's Sibling *)
      match DOM.parentElement el with
      | Some parent =>
          let siblings :=
            filter (fun c => negb (DOM.refEqb c el)) (DOM.children doc parent) in
          parentChildAnchor doc tag siblings
      | None => None
      end
  end.

(** [getAbsoluteXPath], by recursion up the path; [up] is the path of
    the element read from the element to the root.  The test
    [element === document.body] compares with the body of the global
    document, which no node of a parsed document is. *)
Fixpoint getAbsoluteXPathUp (doc : Document) (up : list nat) : string :=
  let element := List.rev up in
  let tag := JS.toLowerCase (DOM.tagName doc element) in
  if negb (String.eqb (DOM.idOf doc element) EmptyString)
  then "//*[@id=" ++ JS.dquote ++ DOM.idOf doc element ++ JS.dquote ++ "]"
  else
    match up with
    | [] => "/" ++ tag
    | i :: upParent =>
        let parent := List.rev upParent in
        let sameTag (node : Node) : bool :=
          DOM.isElement node &&
          String.eqb (JS.toUpperCase (DOM.nodeName node)) (DOM.tagName doc element) in
        let sameTagSiblings := filter sameTag (DOM.childNodes doc parent) in
        if (List.length sameTagSiblings =? 1)%nat
        then getAbsoluteXPathUp doc upParent ++ "/" ++ tag
        else
          if (i <? List.length (DOM.childNodes doc parent))%nat then
            let ix := List.length (filter sameTag (firstn i (DOM.childNodes doc parent))) in
            getAbsoluteXPathUp doc upParent ++ "/" ++ tag
              ++ "[" ++ JS.ofNat (ix + 1) ++ "]"
          else EmptyString
    end.

Definition getAbsoluteXPath (doc : Document) (element : NodeRef) : string :=
  getAbsoluteXPathUp doc (List.rev element).

(** The strategies of [generateLocator].  Each one is a block of the
    function that either returns a locator ([Some]), falls through to
    the next block ([None]), or throws. *)
Definition Attempt : Type := Outcome (option Locator).

Definition found (t : LocatorType.t) (v : string) (s : nat) : Attempt :=
  Returns (Some {| type := t; value := v; score := s |}).
Definition fallThrough : Attempt := Returns None.

(** [if (doc.querySelectorAll(selector).length === 1) return loc]; the
    call is not guarded, so its exception leaves the function. *)
Definition ifUniqueSelector (doc : Document) (selector : string)
           (t : LocatorType.t) (v : string) (s : nat) : Attempt :=
  match querySelectorAll B doc selector with
  | Returns nodes =>
      if (List.length nodes =? 1)%nat then found t v s else fallThrough
  | Throws e => Throws e
  end.

(** 1. ID Strategy *)
Definition idStrategy (el : NodeRef) (doc : Document) : Attempt :=
  let id := DOM.orEmpty (DOM.getAttribute doc el "id") in
  if JS.truthy id && negb (JS.existsChar JS.isDigit id)
     && negb (JS.includes id "ext" || JS.includes id "gen")
  then ifUniqueSelector doc ("#" ++ id) LocatorType.id id 100
  else fallThrough.

(** 2. Name Strategy *)
Definition nameStrategy (el : NodeRef) (doc : Document) : Attempt :=
  let name := DOM.orEmpty (DOM.getAttribute doc el "name") in
  if JS.truthy name
  then ifUniqueSelector doc ("[name=" ++ JS.dquote ++ name ++ JS.dquote ++ "]")
                        LocatorType.name name 95
  else fallThrough.

(** 3. Link Text *)
Definition linkTextStrategy (el : NodeRef) (doc : Document) : Attempt :=
  let tag := JS.toLowerCase (DOM.tagName doc el) in
  let text := cleanText (DOM.textContent doc el) in
  if String.eqb tag "a" && JS.truthy text && (String.length text <? 60)%nat then
    let xpathLink := "//a[normalize-space()='" ++ text ++ "']" in
    if (evaluateXpath xpathLink doc =? 1)%nat
    then found LocatorType.linkText text 90
    else fallThrough
  else fallThrough.

(** 4. Partial Link Text *)
Definition partialLinkTextStrategy (el : NodeRef) (doc : Document) : Attempt :=
  let tag := JS.toLowerCase (DOM.tagName doc el) in
  let text := cleanText (DOM.textContent doc el) in
  if String.eqb tag "a" && JS.truthy text && (5 <? String.length text)%nat then
    let partialText := JS.substring0 15 text in
    let xpathPartial := "//a[contains(text(), '" ++ partialText ++ "')]" in
    if (evaluateXpath xpathPartial doc =? 1)%nat
    then found LocatorType.partialLinkText partialText 85
    else fallThrough
  else fallThrough.

(** 5. CSS Selectors: the loop over [ATTRIBUTE_PRIORITY] *)
Fixpoint cssStrategyLoop (el : NodeRef) (doc : Document) (attrs : list string)
  : Attempt :=
  match attrs with
  | [] => fallThrough
  | attr :: rest =>
      if JS.listIncludes ["id"; "class"; "name"] attr
      then cssStrategyLoop el doc rest
      else
        let tag := JS.toLowerCase (DOM.tagName doc el) in
        let val := DOM.orEmpty (DOM.getAttribute doc el attr) in
        if JS.truthy val then
          let selector :=
            tag ++ "[" ++ attr ++ "=" ++ JS.dquote ++ val ++ JS.dquote ++ "]" in
          match ifUniqueSelector doc selector LocatorType.css selector 80 with
          | Returns None => cssStrategyLoop el doc rest
          | r => r
          end
        else cssStrategyLoop el doc rest
  end.

Definition cssStrategy (el : NodeRef) (doc : Document) : Attempt :=
  cssStrategyLoop el doc ATTRIBUTE_PRIORITY.

(** 6. Class Name: the loop over the classes, whose [try]/[catch]
    skips a class whose selector throws. *)
Fixpoint classStrategyLoop (doc : Document) (classes : list string) : Attempt :=
  match classes with
  | [] => fallThrough
  | c :: rest =>
      match querySelectorAll B doc ("." ++ c) with
      | Returns nodes =>
          if (List.length nodes =? 1)%nat
          then found LocatorType.className c 75
          else classStrategyLoop doc rest
      | Throws _ => classStrategyLoop doc rest
      end
  end.

Definition classStrategy (el : NodeRef) (doc : Document) : Attempt :=
  let className := DOM.orEmpty (DOM.getAttribute doc el "class") in
  if JS.truthy className then
    let classes :=
      filter (fun c => JS.truthy c
                       && negb (JS.listIncludes ["btn"; "form-control"; "input"] c))
             (JS.splitSpaces false EmptyString className) in
    classStrategyLoop doc classes
  else fallThrough.

(** 7. Tag Name *)
Definition tagNameStrategy (el : NodeRef) (doc : Document) : Attempt :=
  let tag := JS.toLowerCase (DOM.tagName doc el) in
  if (List.length (DOM.getElementsByTagName doc tag) =? 1)%nat
  then found LocatorType.tagName tag 70
  else fallThrough.

(** The loop [for (i = 0; i < result.snapshotLength; i++)] that looks
    for [el] among the snapshot items; [i] is the index of the head. *)
Fixpoint snapshotIndex (el : NodeRef) (items : list NodeRef) (i : nat)
  : option nat :=
  match items with
  | [] => None
  | item :: rest =>
      if DOM.refEqb item el then Some i else snapshotIndex el rest (S i)
  end.

(** 8.A Text XPath *)
Definition textXPathStrategy (el : NodeRef) (doc : Document) : Attempt :=
  let tag := JS.toLowerCase (DOM.tagName doc el) in
  let text := cleanText (DOM.textContent doc el) in
  if JS.truthy text && (2 <? String.length text)%nat
     && (String.length text <? 60)%nat then
    let xpathExact := "//" ++ tag ++ "[normalize-space()='" ++ text ++ "']" in
    let count := evaluateXpath xpathExact doc in
    if (count =? 1)%nat then found LocatorType.xpath xpathExact 60
    else if (1 <? count)%nat then
      match evaluate B doc xpathExact with
      | Returns result =>
          match snapshotIndex el result 0 with
          | Some i =>
              found LocatorType.xpath
                    ("(" ++ xpathExact ++ ")[" ++ JS.ofNat (i + 1) ++ "]") 55
          | None => fallThrough
          end
      | Throws e => Throws e
      end
    else fallThrough
  else fallThrough.

(** 8.B Relative XPath: the score of the builder is not used. *)
Definition relativeStrategy (el : NodeRef) (doc : Document) : Attempt :=
  match generateRelativeXPath el doc with
  | Some relative => found LocatorType.xpath (rel_value relative) 50
  | None => fallThrough
  end.

(** 8.C Absolute/Indexed XPath *)
Definition absoluteFallback (el : NodeRef) (doc : Document) : Locator :=
  {| type := LocatorType.xpath; value := getAbsoluteXPath doc el; score := 10 |}.

(** The blocks before the relative one, in the order of the source. *)
Definition directStrategies : list (NodeRef -> Document -> Attempt) :=
  [idStrategy; nameStrategy; linkTextStrategy; partialLinkTextStrategy;
   cssStrategy; classStrategy; tagNameStrategy; textXPathStrategy].

(** Run the blocks in order: the first locator returned, or the first
    exception thrown, ends the function. *)
Fixpoint firstOf (blocks : list (NodeRef -> Document -> Attempt))
         (el : NodeRef) (doc : Document) (otherwise : Outcome Locator)
  : Outcome Locator :=
  match blocks with
  | [] => otherwise
  | block :: rest =>
      match block el doc with
      | Returns (Some loc) => Returns loc
      | Returns None => firstOf rest el doc otherwise
      | Throws e => Throws e
      end
  end.

Definition generateLocator (el : NodeRef) (doc : Document) : Outcome Locator :=
  firstOf (directStrategies ++ [relativeStrategy])%list el doc
          (Returns (absoluteFallback el doc)).

(** ** Page naming *)

Definition notEmpty (s : string) : bool := (0 <? String.length s)%nat.

(** [/^\d+$/.test(s)] *)
Definition allDigits (s : string) : bool :=
  JS.truthy s && JS.forallChar JS.isDigit s.

(** [w.charAt(0).toUpperCase() + w.slice(1)] *)
Definition capitalize (w : string) : string :=
  JS.toUpperCase (JS.charAt0 w) ++ JS.slice1 w.

Definition isSlash (c : ascii) : bool := Ascii.eqb c "/".
(** [[-|]] *)
Definition isDashOrBar (c : ascii) : bool := Ascii.eqb c "-" || Ascii.eqb c "|".

(** Strategy 1: the last meaningful segment of the path. *)
Definition meaningfulSegmentsOf (urlObj : URL) : list string :=
  let pathSegments :=
    filter notEmpty (JS.splitOn isSlash EmptyString (pathname urlObj)) in
  filter (fun s => negb (allDigits s) && (String.length s <? 30)%nat) pathSegments.

Definition nameFromSegment (lastSegment : string) : string :=
  JS.toUpperCase (JS.charAt0 lastSegment)
    ++ JS.filterChars JS.isAlnum (JS.slice1 lastSegment).

(** Strategy 2: the first three words of the title. *)
Definition nameFromTitle (title : string) : string :=
  let cleanTitle :=
    JS.filterChars (fun c => JS.isAlnum c || JS.isSpace c)
      (JS.trim (hd EmptyString (JS.splitOn isDashOrBar EmptyString title))) in
  let words :=
    filter (fun w => (2 <? String.length w)%nat)
           (JS.splitSpaces false EmptyString cleanTitle) in
  JS.join EmptyString (map capitalize (JS.take 3 words)).

(** Final Safety: Truncate and Ensure Suffix *)
Definition finishName (derivedName : string) : string :=
  let derivedName :=
    if negb (JS.truthy derivedName) then "HomePage" else derivedName in
  let derivedName :=
    if (20 <? String.length derivedName)%nat
    then JS.substring0 20 derivedName else derivedName in
  if negb (JS.endsWith derivedName "Page")
  then derivedName ++ "Page" else derivedName.

(** The block "Page Naming Logic" of [analyzeDomAndGenerateSchema]: the
    [try] body when [new URL(url)] returns, the [catch] body when it
    throws (nothing else in the body can throw). *)
Definition derivePageName (doc : Document) (url : string) : string :=
  let derivedName := "HomePage" in
  match newURL B url with
  | Returns urlObj =>
      let meaningfulSegments := meaningfulSegmentsOf urlObj in
      finishName
        (if (0 <? List.length meaningfulSegments)%nat
         then nameFromSegment (last meaningfulSegments EmptyString)
         else if JS.truthy (DOM.title doc)
              then nameFromTitle (DOM.title doc)
              else derivedName)
  | Throws _ =>
      if JS.truthy (DOM.title doc) then
        let simpleTitle := JS.filterChars JS.isAlnum (DOM.title doc) in
        (if (15 <? String.length simpleTitle)%nat
         then JS.substring0 15 simpleTitle else simpleTitle) ++ "Page"
      else derivedName
  end.

(** ** Scraping the interactive elements *)

(** [a || b || ...]: the first truthy operand, the last one otherwise. *)
Fixpoint firstTruthy (operands : list string) (lastOperand : string) : string :=
  match operands with
  | [] => lastOperand
  | v :: rest => if JS.truthy v then v else firstTruthy rest lastOperand
  end.

Definition nameBaseOf (doc : Document) (el : NodeRef) : string :=
  firstTruthy
    [DOM.orEmpty (DOM.getAttribute doc el "id");
     DOM.orEmpty (DOM.getAttribute doc el "name");
     DOM.orEmpty (DOM.getAttribute doc el "placeholder");
     DOM.textContent doc el;
     DOM.orEmpty (DOM.getAttribute doc el "aria-label")]
    (DOM.tagName doc el).

Definition hasName (name : string) (e : ElementDefinition) : bool :=
  String.eqb (el_name e) name.

(** The callback of [nodes.forEach]; [elements] is the array built so
    far. *)
Definition scrapeElement (doc : Document) (elements : list ElementDefinition)
           (el : NodeRef) : M (list ElementDefinition) :=
  if String.eqb (DOM.tagName doc el) "INPUT"
     && String.eqb (DOM.inputType doc el) "hidden"
  then ret elements
  else
    loc <- lift (generateLocator el doc) ;;
    let nameBase := nameBaseOf doc el in
    name <- generateVarName (cleanText nameBase)
              (JS.toLowerCase (DOM.tagName doc el)) ;;
    if negb (existsb (hasName name) elements) then
      id <- drawUUID E ;;
      ret (elements ++
             [{| el_id := id;
                 el_name := name;
                 el_locatorType := type loc;
                 el_locatorValue := value loc;
                 el_description :=
                   "Auto-generated for <"
                     ++ JS.toLowerCase (DOM.tagName doc el) ++ ">" |}])%list
    else ret elements.

(** ** Test generation *)

Definition nameIncludes (sub : string) (e : ElementDefinition) : bool :=
  JS.includes (el_name e) sub.

Definition isUserInput (e : ElementDefinition) : bool :=
  nameIncludes "user" e || nameIncludes "email" e || nameIncludes "login" e.
Definition isPassInput (e : ElementDefinition) : bool :=
  nameIncludes "pass" e.
Definition isSubmitBtn (e : ElementDefinition) : bool :=
  nameIncludes "submit" e || nameIncludes "login" e || nameIncludes "sign_in" e.
Definition isSearchInput (e : ElementDefinition) : bool :=
  nameIncludes "search" e || nameIncludes "query" e.

(** One step object: its [id] is drawn when the literal is evaluated. *)
Definition step (action : Action) (v : option string) (description : string)
  : M TestStep :=
  id <- drawUUID E ;;
  ret {| st_id := id; st_action := action; st_value := v;
         st_description := description |}.

(** [arr[0].name] of a non-empty array. *)
Definition firstName (arr : list ElementDefinition) : string :=
  match arr with e :: _ => el_name e | [] => EmptyString end.

(** heuristic: Detect Login Flow *)
Definition loginFlow (snakePage : string) (elements : list ElementDefinition)
  : M (list TestCase) :=
  let userInputs := filter isUserInput elements in
  let passInputs := filter isPassInput elements in
  let submitBtns := filter isSubmitBtn elements in
  if (0 <? List.length userInputs)%nat && (0 <? List.length passInputs)%nat
     && (0 <? List.length submitBtns)%nat then
    id <- drawUUID E ;;
    s1 <- step input (Some "standard_user")
            ("Enter username into " ++ firstName userInputs) ;;
    s2 <- step input (Some "secret_sauce")
            ("Enter password into " ++ firstName passInputs) ;;
    s3 <- step click (Some EmptyString) ("Click " ++ firstName submitBtns) ;;
    s4 <- step assert_visible (Some "dashboard")
            "Verify successful login location" ;;
    ret [{| tc_id := id;
            tc_name := "test_" ++ snakePage ++ "_login_flow";
            tc_type := smoke;
            tc_steps := [s1; s2; s3; s4] |}]
  else ret [].

(** heuristic: Detect Search Flow *)
Definition searchFlow (snakePage : string) (elements : list ElementDefinition)
  : M (list TestCase) :=
  let searchInputs := filter isSearchInput elements in
  if (0 <? List.length searchInputs)%nat then
    id <- drawUUID E ;;
    s1 <- step input (Some "Test Item")
            ("Type search query in " ++ firstName searchInputs) ;;
    s2 <- step click (Some "Enter") "Submit search" ;;
    s3 <- step assert_visible (Some "results") "Verify results appear" ;;
    ret [{| tc_id := id;
            tc_name := "test_" ++ snakePage ++ "_search";
            tc_type := regression;
            tc_steps := [s1; s2; s3] |}]
  else ret [].

(** If no specific flows detected, fallback to Generic Smoke *)
Definition genericFlow (snakePage : string) (generatedTests : list TestCase)
           (elements : list ElementDefinition) : M (list TestCase) :=
  if (List.length generatedTests =? 0)%nat && (0 <? List.length elements)%nat then
    id <- drawUUID E ;;
    steps <- mapM (fun el =>
                     step (if nameIncludes "input" el then input else click)
                          (if nameIncludes "input" el
                           then Some "test_data" else None)
                          ("Interact with " ++ el_name el))
                  (JS.take 4 elements) ;;
    ret [{| tc_id := id;
            tc_name := "test_" ++ snakePage ++ "_basic_interactions";
            tc_type := smoke;
            tc_steps := steps |}]
  else ret [].

(** [derivedName.split(/(?=[A-Z])/).join('_').toLowerCase()] *)
Definition snakeCase (derivedName : string) : string :=
  JS.toLowerCase (JS.underscoreBeforeUpper true derivedName).

Definition generateTests (derivedName : string)
           (elements : list ElementDefinition) : M (list TestCase) :=
  let snakePage := snakeCase derivedName in
  login <- loginFlow snakePage elements ;;
  search <- searchFlow snakePage elements ;;
  let generatedTests := (login ++ search)%list in
  generic <- genericFlow snakePage generatedTests elements ;;
  ret (generatedTests ++ generic)%list.

(** ** Main service function *)

Definition analyzeDomAndGenerateSchema (html url : string) : M Project :=
  let doc := parseFromString B html in
  let derivedName := derivePageName doc url in
  (* Scrape Interactive Elements *)
  nodes <- lift (querySelectorAll B doc (JS.join ", " INTERACTIVE_TAGS)) ;;
  elements <- forEach nodes (scrapeElement doc) [] ;;
  (* Intelligent Test Generation Logic *)
  generatedTests <- generateTests derivedName elements ;;
  pageId <- drawUUID E ;;
  ret {| pages := [{| pg_id := pageId; pg_name := derivedName;
                      pg_elements := elements |}];
         tests := generatedTests |}.

End Program.

(* ================================================================== *)
(** * The caller of the analysis *)
(* ================================================================== *)



Section Caller.

Variable B : Browser.
Variable E : Entropy.

(** [apiService.fetchPageDom]: the HTML the backend fetched for the URL,
    or the error of the request; the number tells how many requests the
    run has made before. *)
Variable fetchPageDom : nat -> string -> Outcome string.

(** The world that an analysis which throws leaves behind: the values it
    had drawn before are not recorded by [M]. *)
Variable afterFailure : string -> string -> World -> World.



End Caller.

(* ================================================================== *)
(** * An executable browser for a fragment of the selector languages *)
(* ================================================================== *)

(** [Mini.browser] implements the four platform functions on a fragment:
    - selectors: comma-separated lists of compound selectors made of an
      optional type selector and of [#id], [.class], [[attr]] and
      [[attr="value"]] parts;
    - path queries: [//T[normalize-space()='S']] and
      [//T[contains(text(), 'S')]], optionally followed by one step
      [/following-sibling::U] or [/..//U], optionally wrapped as
      [(path)[k]];
    - URLs: [http://host/path?query#fragment] and its [https] form;
    - HTML: start tags with double-quoted attributes, end tags and text,
      with neither comments, character references nor optional tags; a
      fragment that is not a single [html] element becomes the content of
      the [body] of a new document.
    A string outside the fragment of a selector language or of the URL
    syntax is rejected with the exception a browser throws for a string
    outside the language. *)
Module Mini.

(** *** Scanning *)

Fixpoint span (p : ascii -> bool) (s : string) : string * string :=
  match s with
  | EmptyString => (EmptyString, EmptyString)
  | String c s' =>
      if p c then let (a, b) := span p s' in (String c a, b)
      else (EmptyString, s)
  end.

Fixpoint stripPrefix (p s : string) : option string :=
  match p with
  | EmptyString => Some s
  | String c p' =>
      match s with
      | EmptyString => None
      | String d s' => if Ascii.eqb c d then stripPrefix p' s' else None
      end
  end.

(** The text before the first [c] and the text after it. *)
Fixpoint splitAtChar (c : ascii) (s : string) : option (string * string) :=
  match s with
  | EmptyString => None
  | String d s' =>
      if Ascii.eqb c d then Some (EmptyString, s')
      else match splitAtChar c s' with
           | Some (a, b) => Some (String d a, b)
           | None => None
           end
  end.

Definition isLetter (c : ascii) : bool := JS.isLower c || JS.isUpper c.
Definition isNameChar (c : ascii) : bool :=
  isLetter c || JS.isDigit c || Ascii.eqb c "-" || Ascii.eqb c "_".

(** An identifier: name characters, not starting with a digit nor with
    a hyphen followed by a digit, and not a lone hyphen. *)
Definition validIdent (s : string) : bool :=
  match s with
  | EmptyString => false
  | String c r =>
      JS.forallChar isNameChar s && negb (JS.isDigit c) &&
      negb (Ascii.eqb c "-" &&
            match r with
            | EmptyString => true
            | String d _ => JS.isDigit d
            end)
  end.

(** *** Selectors *)

Inductive Simple : Type :=
| ById (v : string)
| ByClass (v : string)
| HasAttr (a : string)
| ByAttr (a v : string).

Record Compound : Type := {
  c_type : option string;
  c_parts : list Simple
}.

Definition quoteChar : ascii := ascii_of_nat 34.

(** The parts after the type selector; [fuel] bounds their number. *)
Fixpoint parseParts (fuel : nat) (s : string) : option (list Simple * string) :=
  match fuel with
  | O => None
  | S fuel' =>
      match s with
      | String "#" r =>
          let (i, r') := span isNameChar r in
          if validIdent i then
            match parseParts fuel' r' with
            | Some (ps, r'') => Some (ById i :: ps, r'')
            | None => None
            end
          else None
      | String "." r =>
          let (i, r') := span isNameChar r in
          if validIdent i then
            match parseParts fuel' r' with
            | Some (ps, r'') => Some (ByClass i :: ps, r'')
            | None => None
            end
          else None
      | String "[" r =>
          let (a, r') := span isNameChar r in
          if validIdent a then
            match r' with
            | String "]" r'' =>
                match parseParts fuel' r'' with
                | Some (ps, r3) => Some (HasAttr a :: ps, r3)
                | None => None
                end
            | String "=" (String q r'') =>
                if Ascii.eqb q quoteChar then
                  match splitAtChar quoteChar r'' with
                  | Some (v, String "]" r3) =>
                      if JS.existsChar (fun c => Ascii.eqb c "\" || (JS.code c =? 10)%nat) v
                      then None
                      else
                        match parseParts fuel' r3 with
                        | Some (ps, r4) => Some (ByAttr a v :: ps, r4)
                        | None => None
                        end
                  | _ => None
                  end
                else None
            | _ => None
            end
          else None
      | _ => Some ([], s)
      end
  end.

Definition parseCompound (s : string) : option (Compound * string) :=
  let (t, r) := span isNameChar s in
  match t with
  | EmptyString =>
      match parseParts (S (String.length r)) r with
      | Some (p :: ps, r') => Some ({| c_type := None; c_parts := p :: ps |}, r')
      | _ => None
      end
  | _ =>
      if validIdent t then
        match parseParts (S (String.length r)) r with
        | Some (ps, r') => Some ({| c_type := Some t; c_parts := ps |}, r')
        | None => None
        end
      else None
  end.

Fixpoint parseSelectorList (fuel : nat) (s : string) : option (list Compound) :=
  match fuel with
  | O => None
  | S fuel' =>
      match parseCompound (JS.dropWhile JS.isSpace s) with
      | Some (c, r) =>
          match JS.dropWhile JS.isSpace r with
          | EmptyString => Some [c]
          | String "," r' =>
              match parseSelectorList fuel' r' with
              | Some cs => Some (c :: cs)
              | None => None
              end
          | _ => None
          end
      | None => None
      end
  end.

Definition classList (n : Node) : list string :=
  filter JS.truthy
    (JS.splitSpaces false EmptyString
       (DOM.orEmpty (DOM.assoc "class" (DOM.nodeAttributes n)))).

Definition matchesSimple (n : Node) (p : Simple) : bool :=
  match p with
  | ById v =>
      match DOM.assoc "id" (DOM.nodeAttributes n) with
      | Some i => String.eqb i v
      | None => false
      end
  | ByClass v => JS.listIncludes (classList n) v
  | HasAttr a =>
      match DOM.assoc (JS.toLowerCase a) (DOM.nodeAttributes n) with
      | Some _ => true
      | None => false
      end
  | ByAttr a v =>
      match DOM.assoc (JS.toLowerCase a) (DOM.nodeAttributes n) with
      | Some w => String.eqb w v
      | None => false
      end
  end.

Definition matchesCompound (n : Node) (c : Compound) : bool :=
  match c_type c with
  | Some t => String.eqb (DOM.nodeName n) (JS.toLowerCase t)
  | None => true
  end && forallb (matchesSimple n) (c_parts c).

Definition matchesAny (cs : list Compound) (doc : Document) (r : NodeRef) : bool :=
  match DOM.lookup doc r with
  | Some n => existsb (matchesCompound n) cs
  | None => false
  end.

Definition querySelectorAll (doc : Document) (selector : string)
  : Outcome (list NodeRef) :=
  match parseSelectorList (S (String.length selector)) selector with
  | Some cs => Returns (filter (matchesAny cs doc) (DOM.allElements doc))
  | None => Throws SyntaxError
  end.

(** *** Path queries *)

Inductive Base : Type :=
| ExactText (t s : string)        (* //t[normalize-space()='s'] *)
| ContainsText (t s : string).    (* //t[contains(text(), 's')] *)

Inductive Path : Type :=
| Anchor (b : Base)
| FollowingSibling (b : Base) (u : string)   (* b/following-sibling::u *)
| ParentDescendant (b : Base) (u : string).  (* b/..//u *)

Definition validName (s : string) : bool :=
  match s with
  | EmptyString => false
  | String c _ => JS.forallChar isNameChar s && (isLetter c || Ascii.eqb c "_")
  end.

Definition parseBase (s : string) : option (Base * string) :=
  match stripPrefix "//" s with
  | Some r =>
      let (t, r1) := span isNameChar r in
      if validName t then
        match stripPrefix "[normalize-space()='" r1 with
        | Some r2 =>
            match splitAtChar "'" r2 with
            | Some (v, String "]" r3) => Some (ExactText t v, r3)
            | _ => None
            end
        | None =>
            match stripPrefix "[contains(text(), '" r1 with
            | Some r2 =>
                match splitAtChar "'" r2 with
                | Some (v, String ")" (String "]" r3)) => Some (ContainsText t v, r3)
                | _ => None
                end
            | None => None
            end
        end
      else None
  | None => None
  end.

Definition parsePath (s : string) : option (Path * string) :=
  match parseBase s with
  | Some (b, r) =>
      match stripPrefix "/following-sibling::" r with
      | Some r1 =>
          let (u, r2) := span isNameChar r1 in
          if validName u then Some (FollowingSibling b u, r2) else None
      | None =>
          match stripPrefix "/..//" r with
          | Some r1 =>
              let (u, r2) := span isNameChar r1 in
              if validName u then Some (ParentDescendant b u, r2) else None
          | None => Some (Anchor b, r)
          end
      end
  | None => None
  end.

(** White space of XPath: space, tab, line feed, carriage return. *)
Definition isXmlSpace (c : ascii) : bool :=
  JS.isSpace c && negb (JS.code c =? 11)%nat && negb (JS.code c =? 12)%nat.

Fixpoint collapseXmlSpaces (inRun : bool) (s : string) : string :=
  match s with
  | EmptyString => EmptyString
  | String c s' =>
      if isXmlSpace c
      then if inRun then collapseXmlSpaces true s'
           else String " " (collapseXmlSpaces true s')
      else String c (collapseXmlSpaces false s')
  end.

(** [normalize-space()] of the string value of a node *)
Definition normalizeSpace (n : Node) : string :=
  JS.dropWhileEnd isXmlSpace
    (JS.dropWhile isXmlSpace (collapseXmlSpaces false (DOM.nodeText n))).

(** [string(text())]: the data of the first text child *)
Fixpoint firstText (cs : list Node) : string :=
  match cs with
  | [] => EmptyString
  | Text d :: _ => d
  | Element _ _ _ :: cs' => firstText cs'
  end.

Definition named (t : string) (n : Node) : bool :=
  String.eqb (DOM.nodeName n) (JS.toLowerCase t).

Definition matchesBase (b : Base) (doc : Document) (r : NodeRef) : bool :=
  match DOM.lookup doc r with
  | Some n =>
      match b with
      | ExactText t s => named t n && String.eqb (normalizeSpace n) s
      | ContainsText t s =>
          named t n && JS.includes (firstText (DOM.nodeChildren n)) s
      end
  | None => false
  end.

Definition evalBase (b : Base) (doc : Document) : list NodeRef :=
  filter (matchesBase b doc) (DOM.allElements doc).

(** [r] is a later sibling of [a]. *)
Definition followsSibling (a r : NodeRef) : bool :=
  match DOM.unsnoc a, DOM.unsnoc r with
  | Some (pa, i), Some (pr, j) => DOM.refEqb pa pr && (i <? j)%nat
  | _, _ => false
  end.

Fixpoint isPrefix (p r : NodeRef) : bool :=
  match p, r with
  | [], _ => true
  | i :: p', j :: r' => (i =? j)%nat && isPrefix p' r'
  | _ :: _, [] => false
  end.

(** [r] lies below the parent of [a]; the parent of the root element is
    the document node, below which every element lies. *)
Definition belowParentOf (a r : NodeRef) : bool :=
  match DOM.unsnoc a with
  | Some (pa, _) => isPrefix pa r && negb (DOM.refEqb pa r)
  | None => true
  end.

Definition hasName (u : string) (doc : Document) (r : NodeRef) : bool :=
  String.eqb (DOM.localName doc r) (JS.toLowerCase u).

Definition evalPath (p : Path) (doc : Document) : list NodeRef :=
  match p with
  | Anchor b => evalBase b doc
  | FollowingSibling b u =>
      filter (fun r => hasName u doc r
                       && existsb (fun a => followsSibling a r) (evalBase b doc))
             (DOM.allElements doc)
  | ParentDescendant b u =>
      filter (fun r => hasName u doc r
                       && existsb (fun a => belowParentOf a r) (evalBase b doc))
             (DOM.allElements doc)
  end.

(** The item at position [k] (counted from 1) of a node list. *)
Definition atPosition (k : nat) (ns : list NodeRef) : list NodeRef :=
  match k with
  | O => []
  | S j => match nth_error ns j with Some r => [r] | None => [] end
  end.

Definition evaluate (doc : Document) (xpath : string) : Outcome (list NodeRef) :=
  match xpath with
  | String "(" inner =>
      match parsePath inner with
      | Some (p, r) =>
          match stripPrefix ")[" r with
          | Some r1 =>
              match splitAtChar "]" r1 with
              | Some (digits, EmptyString) =>
                  match NilEmpty.uint_of_string digits with
                  | Some d =>
                      if JS.truthy digits
                      then Returns (atPosition (Nat.of_uint d) (evalPath p doc))
                      else Throws SyntaxError
                  | None => Throws SyntaxError
                  end
              | _ => Throws SyntaxError
              end
          | None => Throws SyntaxError
          end
      | None => Throws SyntaxError
      end
  | _ =>
      match parsePath xpath with
      | Some (p, EmptyString) => Returns (evalPath p doc)
      | _ => Throws SyntaxError
      end
  end.

(** *** URLs *)

Definition isPathEnd (c : ascii) : bool := Ascii.eqb c "?" || Ascii.eqb c "#".
Definition isHostEnd (c : ascii) : bool := Ascii.eqb c "/" || isPathEnd c.

Definition newURL (url : string) : Outcome URL :=
  let (scheme, r) := span (fun c => negb (Ascii.eqb c ":")) url in
  if String.eqb (JS.toLowerCase scheme) "http"
     || String.eqb (JS.toLowerCase scheme) "https" then
    match stripPrefix "://" r with
    | Some r1 =>
        let (host, r2) := span (fun c => negb (isHostEnd c)) r1 in
        if JS.truthy host && JS.forallChar (fun c => isNameChar c || Ascii.eqb c ".") host
        then
          let (path, _) := span (fun c => negb (isPathEnd c)) r2 in
          Returns {| pathname := if JS.truthy path then path else "/" |}
        else Throws TypeError
    | None => Throws TypeError
    end
  else Throws TypeError.

(** *** HTML *)

Definition voidElements : list string :=
  ["area"; "base"; "br"; "col"; "embed"; "hr"; "img"; "input"; "link";
   "meta"; "source"; "track"; "wbr"].

(** The attributes of a start tag, up to its [>]. *)
Fixpoint parseAttributes (fuel : nat) (s : string)
  : option (list (string * string) * string) :=
  match fuel with
  | O => None
  | S fuel' =>
      match JS.dropWhile JS.isSpace s with
      | String ">" r => Some ([], r)
      | s1 =>
          let (a, r) := span isNameChar s1 in
          if JS.truthy a then
            match r with
            | String "=" (String q r1) =>
                if Ascii.eqb q quoteChar then
                  match splitAtChar quoteChar r1 with
                  | Some (v, r2) =>
                      match parseAttributes fuel' r2 with
                      | Some (attrs, r3) => Some ((JS.toLowerCase a, v) :: attrs, r3)
                      | None => None
                      end
                  | None => None
                  end
                else None
            | _ =>
                match parseAttributes fuel' r with
                | Some (attrs, r3) =>
                    Some ((JS.toLowerCase a, EmptyString) :: attrs, r3)
                | None => None
                end
            end
          else None
      end
  end.

(** The nodes up to the next unmatched end tag (or the end of the
    input), and the input after that end tag. *)
Fixpoint parseNodes (fuel : nat) (s : string) : list Node * string :=
  match fuel with
  | O => ([], EmptyString)
  | S fuel' =>
      match s with
      | EmptyString => ([], EmptyString)
      | String "<" (String "/" r) =>
          match splitAtChar ">" r with
          | Some (_, r1) => ([], r1)
          | None => ([], EmptyString)
          end
      | String "<" r =>
          let (t, r1) := span isNameChar r in
          match parseAttributes (S (String.length r1)) r1 with
          | Some (attrs, r2) =>
              let tag := JS.toLowerCase t in
              if JS.listIncludes voidElements tag then
                let (siblings, r3) := parseNodes fuel' r2 in
                (Element tag attrs [] :: siblings, r3)
              else
                let (kids, r3) := parseNodes fuel' r2 in
                let (siblings, r4) := parseNodes fuel' r3 in
                (Element tag attrs kids :: siblings, r4)
          | None => ([Text s], EmptyString)
          end
      | _ =>
          let (d, r) := span (fun c => negb (Ascii.eqb c "<")) s in
          let (siblings, r1) := parseNodes fuel' r in
          (Text d :: siblings, r1)
      end
  end.

Definition parseFromString (html : string) : Document :=
  match fst (parseNodes (S (String.length html)) html) with
  | [Element "html" attrs kids] =>
      {| documentElement := Element "html" attrs kids |}
  | nodes =>
      {| documentElement :=
           Element "html" [] [Element "head" [] []; Element "body" [] nodes] |}
  end.

Definition browser : Browser :=
  Build_Browser parseFromString newURL querySelectorAll evaluate.

(** Sources of randomness that always give the same value. *)
Definition constantEntropy (r : nat) (u : string) : Entropy :=
  {| randomBelow1000 := fun _ => r; randomUUID := fun _ => u |}.

End Mini.

(* ================================================================== *)
(** * The vocabulary of the properties *)
(* ================================================================== *)

(** Markup written with single quotes around attribute values, turned
    into the markup with double quotes. *)
Definition markup (s : string) : string :=
  JS.mapChars (fun c => if Ascii.eqb c "'" then ascii_of_nat 34 else c) s.

(** ** What a locator selects *)

(** The nodes a locator selects in a document: the query by which the
    resolver itself counted the matches of the locator. *)
Definition locatorMatches (B : Browser) (doc : Document) (loc : Locator)
  : Outcome (list NodeRef) :=
  match type loc with
  | LocatorType.id => querySelectorAll B doc ("#" ++ value loc)
  | LocatorType.name =>
      querySelectorAll B doc ("[name=" ++ JS.dquote ++ value loc ++ JS.dquote ++ "]")
  | LocatorType.linkText =>
      evaluate B doc ("//a[normalize-space()='" ++ value loc ++ "']")
  | LocatorType.partialLinkText =>
      evaluate B doc ("//a[contains(text(), '" ++ value loc ++ "')]")
  | LocatorType.css => querySelectorAll B doc (value loc)
  | LocatorType.className => querySelectorAll B doc ("." ++ value loc)
  | LocatorType.tagName => Returns (DOM.getElementsByTagName doc (value loc))
  | LocatorType.xpath => evaluate B doc (value loc)
  end.

(** A locator that selects exactly one node. *)
Definition selectsOne (B : Browser) (doc : Document) (loc : Locator) : Prop :=
  exists r, locatorMatches B doc loc = Returns [r].

(** ** Two facts about selector engines *)

(** A path query evaluates to the elements of the document.  The filter
    expression [(x)[k]] selects the [k]-th node, in document order, of
    what the exact-text query [x] selects. *)
Definition IndexLaw (B : Browser) : Prop :=
  forall doc tag text result i r,
    evaluate B doc ("//" ++ tag ++ "[normalize-space()='" ++ text ++ "']")
      = Returns result ->
    nth_error result i = Some r ->
    evaluate B doc ("(" ++ ("//" ++ tag ++ "[normalize-space()='" ++ text ++ "']")
                        ++ ")[" ++ JS.ofNat (i + 1) ++ "]")
      = Returns [r].

Definition isInteractive (doc : Document) (el : NodeRef) : bool :=
  JS.listIncludes INTERACTIVE_TAGS (DOM.localName doc el).

Definition interactiveElements (doc : Document) : list NodeRef :=
  filter (isInteractive doc) (DOM.allElements doc).

(** A list of type selectors selects the elements of the document that
    have one of these names, in document order. *)
Definition TagsLaw (B : Browser) : Prop :=
  forall doc,
    querySelectorAll B doc (JS.join ", " INTERACTIVE_TAGS)
      = Returns (interactiveElements doc).

(** ** The relative tier *)




(** ** Results up to the generated identifiers *)

Definition eraseElementId (e : ElementDefinition) : ElementDefinition :=
  {| el_id := EmptyString; el_name := el_name e;
     el_locatorType := el_locatorType e; el_locatorValue := el_locatorValue e;
     el_description := el_description e |}.

Definition eraseStepId (s : TestStep) : TestStep :=
  {| st_id := EmptyString; st_action := st_action s; st_value := st_value s;
     st_description := st_description s |}.

Definition eraseTestIds (t : TestCase) : TestCase :=
  {| tc_id := EmptyString; tc_name := tc_name t; tc_type := tc_type t;
     tc_steps := map eraseStepId (tc_steps t) |}.





Definition isHiddenInput (doc : Document) (el : NodeRef) : bool :=
  String.eqb (DOM.tagName doc el) "INPUT"
  && String.eqb (DOM.inputType doc el) "hidden".

(** ** Page naming *)


(** ** Flows *)

(** Case-insensitive containment of one of the keywords in a name. *)
Definition mentions (keywords : list string) (e : ElementDefinition) : bool :=
  existsb (JS.includes (JS.toLowerCase (el_name e))) keywords.

Definition loginDetected (elements : list ElementDefinition) : bool :=
  existsb (mentions ["user"; "email"; "login"]) elements
  && existsb (mentions ["pass"]) elements
  && existsb (mentions ["submit"; "login"; "sign_in"]) elements.

Definition firstMention (keywords : list string)
           (elements : list ElementDefinition) : string :=
  match find (mentions keywords) elements with
  | Some e => el_name e
  | None => EmptyString
  end.

Definition loginTestName (pageName : string) : string :=
  "test_" ++ snakeCase pageName ++ "_login_flow".
Definition searchTestName (pageName : string) : string :=
  "test_" ++ snakeCase pageName ++ "_search".
Definition genericTestName (pageName : string) : string :=
  "test_" ++ snakeCase pageName ++ "_basic_interactions".

Definition hasTest (name : string) (p : Project) : Prop :=
  exists t, In t (tests p) /\ tc_name t = name.

(** A step without its identifier. *)
Definition stepShape (s : TestStep) : Action * option string * string :=
  (st_action s, st_value s, st_description s).

(** ** First occurrences *)

(** An element definition before it gets its identifier. *)
Definition candidateOf (doc : Document) (el : NodeRef) (loc : Locator)
           (name : string) : ElementDefinition :=
  {| el_id := EmptyString; el_name := name;
     el_locatorType := type loc; el_locatorValue := value loc;
     el_description :=
       "Auto-generated for <" ++ JS.toLowerCase (DOM.tagName doc el) ++ ">" |}.

Section Candidates.
Variable B : Browser.
Variable E : Entropy.
Local Open Scope m_scope.

(** What every scraped node would contribute, in scan order, were no
    duplicate dropped: hidden inputs contribute nothing. *)
Fixpoint candidates (doc : Document) (nodes : list NodeRef)
  : M (list ElementDefinition) :=
  match nodes with
  | [] => ret []
  | el :: rest =>
      if isHiddenInput doc el then candidates doc rest
      else
        loc <- lift (generateLocator B el doc) ;;
        name <- generateVarName E (cleanText (nameBaseOf doc el))
                  (JS.toLowerCase (DOM.tagName doc el)) ;;
        cs <- candidates doc rest ;;
        ret (candidateOf doc el loc name :: cs)
  end.
End Candidates.

(** The candidates whose name did not occur before, [seen] being the
    names that occurred already. *)
Fixpoint firstOccurrences (seen : list string) (cands : list ElementDefinition)
  : list ElementDefinition :=
  match cands with
  | [] => []
  | c :: rest =>
      if JS.listIncludes seen (el_name c) then firstOccurrences seen rest
      else c :: firstOccurrences (seen ++ [el_name c])%list rest
  end.

(** ** The analysis without its identifiers *)

(** The name [generateVarName] returns when [k] random numbers have been
    drawn before the call. *)
Definition generatedName (E : Entropy) (base tag : string) (k : nat) : string :=
  (if JS.truthy (varNameOf base) then varNameOf base
   else "element_" ++ JS.ofNat (randomBelow1000 E k)) ++ "_" ++ tag.

(** The world after that call. *)
Definition afterName (base : string) (w : World) : World :=
  if JS.truthy (varNameOf base) then w
  else {| randomCalls := S (randomCalls w); uuidCalls := uuidCalls w |}.

(** The keyword tests of the flows, on a name. *)
Definition userLike (n : string) : bool :=
  JS.includes n "user" || JS.includes n "email" || JS.includes n "login".
Definition passLike (n : string) : bool := JS.includes n "pass".
Definition submitLike (n : string) : bool :=
  JS.includes n "submit" || JS.includes n "login" || JS.includes n "sign_in".
Definition searchLike (n : string) : bool :=
  JS.includes n "search" || JS.includes n "query".

(** A step and a test case whose identifiers are blank. *)
Definition bareStep (a : Action) (v : option string) (d : string) : TestStep :=
  {| st_id := EmptyString; st_action := a; st_value := v; st_description := d |}.

Definition bareTest (n : string) (t : TestType) (steps : list TestStep) : TestCase :=
  {| tc_id := EmptyString; tc_name := n; tc_type := t; tc_steps := steps |}.

Definition loginCase (snakePage : string) (names : list string) : TestCase :=
  bareTest ("test_" ++ snakePage ++ "_login_flow") smoke
    [bareStep input (Some "standard_user")
       ("Enter username into " ++ hd EmptyString (filter userLike names));
     bareStep input (Some "secret_sauce")
       ("Enter password into " ++ hd EmptyString (filter passLike names));
     bareStep click (Some EmptyString)
       ("Click " ++ hd EmptyString (filter submitLike names));
     bareStep assert_visible (Some "dashboard") "Verify successful login location"].

Definition searchCase (snakePage : string) (names : list string) : TestCase :=
  bareTest ("test_" ++ snakePage ++ "_search") regression
    [bareStep input (Some "Test Item")
       ("Type search query in " ++ hd EmptyString (filter searchLike names));
     bareStep click (Some "Enter") "Submit search";
     bareStep assert_visible (Some "results") "Verify results appear"].

Definition genericStep (n : string) : TestStep :=
  bareStep (if JS.includes n "input" then input else click)
           (if JS.includes n "input" then Some "test_data" else None)
           ("Interact with " ++ n).

Definition genericCase (snakePage : string) (names : list string) : TestCase :=
  bareTest ("test_" ++ snakePage ++ "_basic_interactions") smoke
    (map genericStep (firstn 4 names)).

Definition loginCondition (names : list string) : bool :=
  existsb userLike names && existsb passLike names && existsb submitLike names.

Definition searchCondition (names : list string) : bool := existsb searchLike names.

(** The test cases of a page, without identifiers, from the names of its
    elements. *)
Definition expectedTests (derivedName : string) (names : list string)
  : list TestCase :=
  let snakePage := snakeCase derivedName in
  ((if loginCondition names then [loginCase snakePage names] else [])
   ++ (if searchCondition names then [searchCase snakePage names] else [])
   ++ (if negb (loginCondition names) && negb (searchCondition names)
          && negb (Nat.eqb (List.length names) 0)
       then [genericCase snakePage names] else []))%list.


(** A string that [toLowerCase] leaves as it is. *)
Definition lowerFixed (s : string) : Prop := JS.toLowerCase s = s.

(** Where an element definition comes from: a scraped node that is not a
    hidden input, whose tag is in its description and at the end of its
    name. *)
Definition comesFrom (E : Entropy) (doc : Document) (el : NodeRef)
           (e : ElementDefinition) : Prop :=
  isHiddenInput doc el = false
  /\ el_description e
     = "Auto-generated for <" ++ JS.toLowerCase (DOM.tagName doc el) ++ ">"
  /\ exists k,
       el_name e
       = generatedName E (cleanText (nameBaseOf doc el))
                       (JS.toLowerCase (DOM.tagName doc el)) k.

(* ================================================================== *)
(** * Example pages *)
(* ================================================================== *)

(** The pages on which the program is run below.  The handle [[1; k]] is
    the [k]-th child of [body], which is the second child of [html]. *)
Module Pages.

(** Two buttons that differ in nothing. *)
Definition twoButtons : string :=
  markup "<button class='btn'>Go on</button><button class='btn'>Go on</button>".

(** A labelled input, and a second input elsewhere. *)
Definition labelledInput : string :=
  markup "<div><label>Email</label><input></div><div><input></div>".

(** An input with a hand-written id. *)
Definition plainId : string := markup "<input id='username'>".

(** An input whose id is made of a form name and a field name. *)
Definition colonId : string := markup "<input id='form:user'>".



(** A login form. *)
Definition login : string :=
  markup "<input name='username'><input name='password' type='password'><input type='hidden' name='token'><button id='submit'>Sign in</button>".

Definition shopUrl : string := "https://shop.example.com/products/42".

End Pages.

(* ================================================================== *)
(** * The vocabulary of the further properties *)
(* ================================================================== *)

(** ** The resolver *)

(** The selectors that [generateLocator] hands to [querySelectorAll]
    outside any [try]: the id selector, the name selector and the
    attribute selectors of the loop over [ATTRIBUTE_PRIORITY]. *)
Definition attributeSelector (doc : Document) (el : NodeRef) (attr : string)
  : string :=
  JS.toLowerCase (DOM.tagName doc el) ++ "[" ++ attr ++ "=" ++ JS.dquote
    ++ DOM.orEmpty (DOM.getAttribute doc el attr) ++ JS.dquote ++ "]".

Definition unguardedSelectors (doc : Document) (el : NodeRef) : list string :=
  ("#" ++ DOM.orEmpty (DOM.getAttribute doc el "id"))
  :: ("[name=" ++ JS.dquote ++ DOM.orEmpty (DOM.getAttribute doc el "name")
        ++ JS.dquote ++ "]")
  :: map (attributeSelector doc el)
         ["data-testid"; "data-test"; "data-cy"; "placeholder"; "aria-label";
          "title"; "alt"].

(** The kind and the score of each tier. *)
Definition tiers : list (LocatorType.t * nat) :=
  [(LocatorType.id, 100); (LocatorType.name, 95); (LocatorType.linkText, 90);
   (LocatorType.partialLinkText, 85); (LocatorType.css, 80);
   (LocatorType.className, 75); (LocatorType.tagName, 70);
   (LocatorType.xpath, 60); (LocatorType.xpath, 55); (LocatorType.xpath, 50);
   (LocatorType.xpath, 10)].

(** A locator of the given kind and score. *)
Definition inTier (t : LocatorType.t) (s : nat) (loc : Locator) : Prop :=
  type loc = t /\ score loc = s.

(** The id of the element is of no use: it is missing or empty, or has a
    digit, or contains "ext" or "gen", or its selector is evaluated and
    does not select exactly one node. *)
Definition idUnusable (B : Browser) (el : NodeRef) (doc : Document) : Prop :=
  let id := DOM.orEmpty (DOM.getAttribute doc el "id") in
  JS.truthy id = false
  \/ JS.existsChar JS.isDigit id = true
  \/ JS.includes id "ext" || JS.includes id "gen" = true
  \/ exists nodes, querySelectorAll B doc ("#" ++ id) = Returns nodes
                   /\ List.length nodes <> 1.

(** The name attribute of the element is of no use: it is missing or
    empty, or its selector is evaluated and does not select exactly one
    node. *)
Definition nameUnusable (B : Browser) (el : NodeRef) (doc : Document) : Prop :=
  let name := DOM.orEmpty (DOM.getAttribute doc el "name") in
  JS.truthy name = false
  \/ exists nodes,
       querySelectorAll B doc ("[name=" ++ JS.dquote ++ name ++ JS.dquote ++ "]")
       = Returns nodes
       /\ List.length nodes <> 1.



(** ** Names and texts *)

(** A character of a generated name. *)
Definition isNameSafe (c : ascii) : bool := JS.isLowerAlnum c || isUnderscore c.




(** [dropWhileEnd] by recursion from the front. *)
Fixpoint dropEnd (p : ascii -> bool) (s : string) : string :=
  match s with
  | EmptyString => EmptyString
  | String c s' =>
      match dropEnd p s' with
      | EmptyString => if p c then EmptyString else String c EmptyString
      | r => String c r
      end
  end.

(** ** Flows *)

Definition searchDetected (elements : list ElementDefinition) : bool :=
  existsb (mentions ["search"; "query"]) elements.

(** The step of the generic test for an element. *)
Definition interaction (e : ElementDefinition)
  : Action * option string * string :=
  (if JS.includes (el_name e) "input" then input else click,
   if JS.includes (el_name e) "input" then Some "test_data" else None,
   "Interact with " ++ el_name e).

(** ** The caller *)





(** Requests that answer with the same page whatever the URL. *)
Definition alwaysServes (html : string) (requests : nat) (url : string)
  : Outcome string := Returns html.


(** ** More pages *)

Module MorePages.

(** A password field with a generated id. *)
Definition generatedId : string :=
  markup "<input id='ext-gen55' name='password' type='password'>".


(** A search form. *)
Definition search : string :=
  markup "<input name='query'><button>Go</button>".

(** Five links. *)
Definition fiveLinks : string :=
  markup "<a href='/a'>Alpha</a><a href='/b'>Beta</a><a href='/c'>Gamma</a><a href='/d'>Delta</a><a href='/e'>Epsilon</a>".

End MorePages.

(* ================================================================== *)
(** * Proofs: the resolver *)
(* ================================================================== *)

Unset Implicit Arguments.

Ltac inv H := inversion H; subst; clear H.

(** Split on the condition of a conditional in hypothesis [H]. *)
Ltac split_if H :=
  match type of H with
  | context [if ?c then _ else _] => destruct c eqn:?
  end.

Section ResolverFacts.

Variable B : Browser.

Lemma length_one {A} (l : list A) :
  (List.length l =? 1)%nat = true -> exists r, l = [r].
Proof.
  destruct l as [|r [|r' l]]; simpl; try discriminate.
  intros _. now exists r.
Qed.

Lemma evaluateXpath_one xpath doc :
  (evaluateXpath B xpath doc =? 1)%nat = true ->
  exists r, evaluate B doc xpath = Returns [r].
Proof.
  unfold evaluateXpath. destruct (evaluate B doc xpath) as [ns|e].
  - intros H. destruct (length_one _ H) as [r ->]. now exists r.
  - discriminate.
Qed.

Lemma ifUniqueSelector_found doc selector t v s loc :
  ifUniqueSelector B doc selector t v s = Returns (Some loc) ->
  loc = {| type := t; value := v; score := s |}
  /\ exists r, querySelectorAll B doc selector = Returns [r].
Proof.
  unfold ifUniqueSelector, found, fallThrough.
  destruct (querySelectorAll B doc selector) as [ns|e]; [|discriminate].
  destruct (List.length ns =? 1)%nat eqn:L; [|discriminate].
  intros H. inv H. split; [reflexivity|].
  destruct (length_one _ L) as [r ->]. now exists r.
Qed.

Lemma idStrategy_sound el doc loc :
  idStrategy B el doc = Returns (Some loc) ->
  score loc = 100 /\ selectsOne B doc loc.
Proof.
  unfold idStrategy. intros H. split_if H; [|discriminate].
  apply ifUniqueSelector_found in H. destruct H as [-> [r Hr]].
  split; [reflexivity|]. exists r. exact Hr.
Qed.

Lemma nameStrategy_sound el doc loc :
  nameStrategy B el doc = Returns (Some loc) ->
  score loc = 95 /\ selectsOne B doc loc.
Proof.
  unfold nameStrategy. intros H. split_if H; [|discriminate].
  apply ifUniqueSelector_found in H. destruct H as [-> [r Hr]].
  split; [reflexivity|]. exists r. exact Hr.
Qed.

Lemma linkTextStrategy_sound el doc loc :
  linkTextStrategy B el doc = Returns (Some loc) ->
  score loc = 90 /\ selectsOne B doc loc.
Proof.
  unfold linkTextStrategy, found, fallThrough. intros H.
  split_if H; [|discriminate]. split_if H; [|discriminate].
  inv H. split; [reflexivity|]. now apply evaluateXpath_one.
Qed.

Lemma partialLinkTextStrategy_sound el doc loc :
  partialLinkTextStrategy B el doc = Returns (Some loc) ->
  score loc = 85 /\ selectsOne B doc loc.
Proof.
  unfold partialLinkTextStrategy, found, fallThrough. intros H.
  split_if H; [|discriminate]. split_if H; [|discriminate].
  inv H. split; [reflexivity|]. now apply evaluateXpath_one.
Qed.

Lemma cssStrategyLoop_sound el doc attrs loc :
  cssStrategyLoop B el doc attrs = Returns (Some loc) ->
  score loc = 80 /\ selectsOne B doc loc.
Proof.
  induction attrs as [|attr rest IH]; simpl; [discriminate|].
  intros H. split_if H; [now apply IH|].
  split_if H; [|now apply IH].
  match type of H with
  | context [ifUniqueSelector B doc ?sel ?t ?v ?s] =>
      destruct (ifUniqueSelector B doc sel t v s) as [[l|]|e] eqn:U
  end.
  - inv H. apply ifUniqueSelector_found in U. destruct U as [-> [r Hr]].
    split; [reflexivity|]. exists r. exact Hr.
  - now apply IH.
  - discriminate.
Qed.

Lemma classStrategyLoop_sound doc classes loc :
  classStrategyLoop B doc classes = Returns (Some loc) ->
  score loc = 75 /\ selectsOne B doc loc.
Proof.
  induction classes as [|c rest IH]; simpl; [discriminate|].
  match goal with
  | |- context [querySelectorAll B doc ?sel] =>
      destruct (querySelectorAll B doc sel) as [ns|e] eqn:Q; [|exact IH]
  end.
  destruct (List.length ns =? 1)%nat eqn:L; [|exact IH].
  intros H. inv H. split; [reflexivity|].
  destruct (length_one _ L) as [r ->]. exists r. exact Q.
Qed.

Lemma classStrategy_sound el doc loc :
  classStrategy B el doc = Returns (Some loc) ->
  score loc = 75 /\ selectsOne B doc loc.
Proof.
  unfold classStrategy. intros H. split_if H; [|discriminate].
  now apply classStrategyLoop_sound in H.
Qed.

Lemma tagNameStrategy_sound el doc loc :
  tagNameStrategy el doc = Returns (Some loc) ->
  score loc = 70 /\ selectsOne B doc loc.
Proof.
  unfold tagNameStrategy, found, fallThrough. intros H.
  split_if H; [|discriminate]. inv H. split; [reflexivity|].
  match goal with L : (List.length _ =? 1)%nat = true |- _ =>
    destruct (length_one _ L) as [r Hr] end.
  exists r. unfold locatorMatches. simpl. now rewrite Hr.
Qed.

(** The loop that searches the snapshot returns a position of it. *)
Lemma snapshotIndex_nth el items : forall i k,
  snapshotIndex el items i = Some k ->
  exists j, k = i + j /\ nth_error items j = Some el.
Proof.
  induction items as [|item rest IH]; simpl; intros i k H; [discriminate|].
  destruct (DOM.refEqb item el) eqn:R.
  - inv H. exists 0. split; [lia|]. simpl.
    unfold DOM.refEqb in R.
    destruct (list_eq_dec Nat.eq_dec item el); [now subst|discriminate].
  - destruct (IH _ _ H) as [j [-> Hj]]. exists (S j). split; [lia|exact Hj].
Qed.

Lemma textXPathStrategy_sound (law : IndexLaw B) el doc loc :
  textXPathStrategy B el doc = Returns (Some loc) ->
  (score loc = 60 \/ score loc = 55) /\ selectsOne B doc loc.
Proof.
  unfold textXPathStrategy, found, fallThrough. intros H.
  split_if H; [|discriminate]. split_if H.
  - inv H. split; [now left|]. now apply evaluateXpath_one.
  - split_if H; [|discriminate].
    match type of H with
    | context [evaluate B doc ?x] => destruct (evaluate B doc x) as [ns|e] eqn:Ev
    end; [|discriminate].
    destruct (snapshotIndex el ns 0) as [i|] eqn:S; [|discriminate].
    inv H. split; [now right|].
    destruct (snapshotIndex_nth _ _ _ _ S) as [j [-> Hj]]. simpl in *.
    exists el. unfold locatorMatches. simpl.
    exact (law doc _ _ ns j el Ev Hj).
Qed.

Lemma precedingSiblingAnchor_sound doc tag siblings r :
  precedingSiblingAnchor B doc tag siblings = Some r ->
  rel_score r = 95 /\ (evaluateXpath B (rel_value r) doc =? 1)%nat = true.
Proof.
  induction siblings as [|sib rest IH]; simpl; [discriminate|].
  intros H. split_if H; [|now apply IH].
  split_if H; [|now apply IH]. split_if H; [|now apply IH].
  inv H. now split.
Qed.

Lemma parentChildAnchor_sound doc tag siblings r :
  parentChildAnchor B doc tag siblings = Some r ->
  rel_score r = 92 /\ (evaluateXpath B (rel_value r) doc =? 1)%nat = true.
Proof.
  induction siblings as [|sib rest IH]; simpl; [discriminate|].
  intros H. split_if H; [|now apply IH].
  split_if H; [|now apply IH]. split_if H; [|now apply IH].
  inv H. now split.
Qed.

Lemma generateRelativeXPath_sound el doc r :
  generateRelativeXPath B el doc = Some r ->
  (evaluateXpath B (rel_value r) doc =? 1)%nat = true.
Proof.
  unfold generateRelativeXPath.
  destruct (precedingSiblingAnchor B doc _ _) as [a|] eqn:A.
  - intros H. inv H. now apply precedingSiblingAnchor_sound in A.
  - destruct (DOM.parentElement el); [|discriminate].
    intros H. now apply parentChildAnchor_sound in H.
Qed.

Lemma relativeStrategy_sound el doc loc :
  relativeStrategy B el doc = Returns (Some loc) ->
  score loc = 50 /\ selectsOne B doc loc.
Proof.
  unfold relativeStrategy, found, fallThrough.
  destruct (generateRelativeXPath B el doc) as [r|] eqn:R; [|discriminate].
  intros H. inv H. split; [reflexivity|].
  apply generateRelativeXPath_sound in R. now apply evaluateXpath_one.
Qed.

(** What [firstOf] returns comes from one of its blocks or is the
    fallback. *)
Lemma firstOf_inv blocks el doc otherwise loc :
  firstOf blocks el doc otherwise = Returns loc ->
  (exists block, In block blocks /\ block el doc = Returns (Some loc))
  \/ otherwise = Returns loc.
Proof.
  induction blocks as [|b rest IH]; simpl; intros H; [now right|].
  destruct (b el doc) as [[l|]|e] eqn:Eb.
  - inv H. left. exists b. auto.
  - destruct (IH H) as [[b' [Hin Hb']]|Ho]; [left|now right].
    exists b'. auto.
  - discriminate.
Qed.


Lemma firstOf_app bs1 bs2 el doc otherwise :
  firstOf (bs1 ++ bs2)%list el doc otherwise
  = firstOf bs1 el doc (firstOf bs2 el doc otherwise).
Proof.
  induction bs1 as [|b rest IH]; simpl; [reflexivity|].
  destruct (b el doc) as [[l|]|e]; auto.
Qed.

End ResolverFacts.

(** C1. A locator that the resolver returns from a tier other than the
    absolute path (score 10) selects exactly one node of the document it
    was computed on. *)
Theorem C1_returned_locator_is_unique :
  forall (B : Browser) (el : NodeRef) (doc : Document) (loc : Locator),
    IndexLaw B ->
    generateLocator B el doc = Returns loc ->
    score loc <> 10 ->
    exists r, locatorMatches B doc loc = Returns [r].
Proof.
  intros B el doc loc law H Hscore. unfold generateLocator in H.
  apply firstOf_inv in H. destruct H as [[block [Hin Hb]]|H].
  - apply in_app_or in Hin. simpl in Hin.
    repeat match type of Hin with
           | _ \/ _ => destruct Hin as [Hin|Hin]
           end; subst; try contradiction.
    + exact (proj2 (idStrategy_sound B _ _ _ Hb)).
    + exact (proj2 (nameStrategy_sound B _ _ _ Hb)).
    + exact (proj2 (linkTextStrategy_sound B _ _ _ Hb)).
    + exact (proj2 (partialLinkTextStrategy_sound B _ _ _ Hb)).
    + exact (proj2 (cssStrategyLoop_sound B _ _ _ _ Hb)).
    + exact (proj2 (classStrategy_sound B _ _ _ Hb)).
    + exact (proj2 (tagNameStrategy_sound B _ _ _ Hb)).
    + exact (proj2 (textXPathStrategy_sound B law _ _ _ Hb)).
    + exact (proj2 (relativeStrategy_sound B _ _ _ Hb)).
  - inv H. simpl in Hscore. contradiction.
Qed.

(* ================================================================== *)
(** * Proofs: the executable browser obeys the two laws *)
(* ================================================================== *)

Module MiniFacts.

Lemma stripPrefix_app p : forall s r x,
  Mini.stripPrefix p s = Some r -> Mini.stripPrefix p (s ++ x) = Some (r ++ x).
Proof.
  induction p as [|c p IH]; simpl; intros s r x H.
  - now inv H.
  - destruct s as [|d s]; [discriminate|]. simpl.
    destruct (Ascii.eqb c d); [now apply IH|discriminate].
Qed.

Lemma stripPrefix_Some p : forall s r,
  Mini.stripPrefix p s = Some r -> s = p ++ r.
Proof.
  induction p as [|c p IH]; simpl; intros s r H.
  - now inv H.
  - destruct s as [|d s]; [discriminate|].
    destruct (Ascii.eqb_spec c d); [|discriminate].
    subst. f_equal. now apply IH.
Qed.

Lemma splitAtChar_app c : forall s a b x,
  Mini.splitAtChar c s = Some (a, b) -> Mini.splitAtChar c (s ++ x) = Some (a, b ++ x).
Proof.
  induction s as [|d s IH]; simpl; intros a b x H; [discriminate|].
  destruct (Ascii.eqb c d).
  - now inv H.
  - destruct (Mini.splitAtChar c s) as [[a' b']|]; [|discriminate].
    inv H. now rewrite (IH _ _ x eq_refl).
Qed.

(** Scanning a name stops where it stopped before when the text added
    after it cannot continue the name. *)
Lemma span_app p : forall s a b x,
  Mini.span p s = (a, b) ->
  (b = EmptyString -> Mini.span p x = (EmptyString, x)) ->
  Mini.span p (s ++ x) = (a, b ++ x).
Proof.
  induction s as [|c s IH]; simpl; intros a b x H Hx.
  - inv H. now apply Hx.
  - destruct (p c).
    + destruct (Mini.span p s) as [a' b'] eqn:S. inv H.
      now rewrite (IH _ _ x eq_refl Hx).
    + now inv H.
Qed.

Lemma parseBase_app s b r x :
  Mini.parseBase s = Some (b, r) -> Mini.parseBase (s ++ x) = Some (b, r ++ x).
Proof.
  unfold Mini.parseBase. destruct (Mini.stripPrefix "//" s) as [r0|] eqn:P; [|discriminate].
  rewrite (stripPrefix_app _ _ _ x P).
  destruct (Mini.span Mini.isNameChar r0) as [t r1] eqn:S.
  destruct (Mini.validName t) eqn:V; [|discriminate].
  destruct (Mini.stripPrefix "[normalize-space()='" r1) as [r2|] eqn:P1.
  - assert (r1 <> EmptyString) by (intros ->; discriminate).
    rewrite (span_app _ _ _ _ x S) by (intros; contradiction).
    rewrite V, (stripPrefix_app _ _ _ x P1).
    destruct (Mini.splitAtChar "'" r2) as [[v [|c r3]]|] eqn:Q; try discriminate.
    rewrite (splitAtChar_app _ _ _ _ x Q). simpl.
    destruct c as [[] [] [] [] [] [] [] []]; try discriminate.
    intros E0. now inv E0.
  - destruct (Mini.stripPrefix "[contains(text(), '" r1) as [r2|] eqn:P2; [|discriminate].
    assert (r1 <> EmptyString) by (intros ->; discriminate).
    rewrite (span_app _ _ _ _ x S) by (intros; contradiction).
    rewrite V. apply stripPrefix_Some in P2. subst r1. simpl.
    destruct (Mini.splitAtChar "'" r2) as [[v [|c [|c' r3]]]|] eqn:Q; try discriminate.
    + destruct c as [[] [] [] [] [] [] [] []]; discriminate.
    + rewrite (splitAtChar_app _ _ _ _ x Q). simpl.
      destruct c as [[] [] [] [] [] [] [] []]; try discriminate.
      destruct c' as [[] [] [] [] [] [] [] []]; try discriminate.
      intros E0. now inv E0.
Qed.

(** A path that was read to the end of the text is read in the same way
    before a closing parenthesis. *)
Lemma parsePath_app s p x :
  Mini.parsePath s = Some (p, EmptyString) ->
  Mini.parsePath (s ++ String ")" x) = Some (p, String ")" x).
Proof.
  unfold Mini.parsePath. destruct (Mini.parseBase s) as [[b r]|] eqn:PB; [|discriminate].
  rewrite (parseBase_app _ _ _ (String ")" x) PB).
  destruct (Mini.stripPrefix "/following-sibling::" r) as [r1|] eqn:P1.
  - rewrite (stripPrefix_app _ _ _ (String ")" x) P1).
    destruct (Mini.span Mini.isNameChar r1) as [u r2] eqn:S.
    destruct (Mini.validName u) eqn:V; [|discriminate]. intros H. inv H.
    rewrite (span_app _ _ _ _ (String ")" x) S) by (intros _; reflexivity).
      now rewrite V.
  - destruct (Mini.stripPrefix "/..//" r) as [r1|] eqn:P2.
    + apply stripPrefix_Some in P2. subst r. simpl.
      destruct (Mini.span Mini.isNameChar r1) as [u r2] eqn:S.
      destruct (Mini.validName u) eqn:V; [|discriminate]. intros H. inv H.
      rewrite (span_app _ _ _ _ (String ")" x) S) by (intros _; reflexivity).
      now rewrite V.
    + intros H. inv H. reflexivity.
Qed.

Lemma digits_ofUint d : JS.forallChar JS.isDigit (NilEmpty.string_of_uint d) = true.
Proof. induction d; simpl; auto. Qed.

Lemma splitAtChar_digits s : forall r,
  JS.forallChar JS.isDigit s = true ->
  Mini.splitAtChar "]" (s ++ String "]" r) = Some (s, r).
Proof.
  induction s as [|c s IH]; intros r H; [reflexivity|].
  cbn [JS.forallChar] in H. apply andb_true_iff in H. destruct H as [Hc Hs].
  cbn [append Mini.splitAtChar].
  destruct (Ascii.eqb_spec "]"%char c) as [<-|_]; [discriminate|].
  now rewrite (IH r Hs).
Qed.

Lemma ofNat_truthy n : JS.truthy (JS.ofNat (S n)) = true.
Proof.
  unfold JS.ofNat. destruct (Nat.to_uint (S n)) eqn:U; try reflexivity.
  pose proof (DecimalNat.Unsigned.of_to (S n)) as H. rewrite U in H. discriminate.
Qed.

Lemma evaluate_indexed doc x p i r :
  Mini.parsePath x = Some (p, EmptyString) ->
  nth_error (Mini.evalPath p doc) i = Some r ->
  Mini.evaluate doc (String "(" (x ++ ")[" ++ JS.ofNat (i + 1) ++ "]")) = Returns [r].
Proof.
  intros P N. unfold Mini.evaluate.
  change (")[" ++ JS.ofNat (i + 1) ++ "]")
    with (String ")" (String "[" (JS.ofNat (i + 1) ++ "]"))).
  rewrite (parsePath_app _ _ _ P). simpl Mini.stripPrefix.
  unfold JS.ofNat at 1.
  rewrite (splitAtChar_digits _ EmptyString (digits_ofUint _)).
  rewrite NilEmpty.usu, DecimalNat.Unsigned.of_to.
  rewrite Nat.add_1_r.
  change (NilEmpty.string_of_uint (Nat.to_uint (S i))) with (JS.ofNat (S i)).
  rewrite ofNat_truthy. simpl. now rewrite N.
Qed.

Lemma evaluate_path doc x result :
  Mini.evaluate doc (String "/" x) = Returns result ->
  exists p, Mini.parsePath (String "/" x) = Some (p, EmptyString)
            /\ result = Mini.evalPath p doc.
Proof.
  unfold Mini.evaluate. cbv iota beta.
  destruct (Mini.parsePath (String "/" x)) as [[p [|c rest]]|];
    try discriminate.
  intros H. inv H. now exists p.
Qed.

Theorem indexLaw : IndexLaw Mini.browser.
Proof.
  intros doc tag text result i r Ev N. cbn [evaluate Mini.browser] in Ev |- *.
  apply (evaluate_path doc
           (String "/" (tag ++ "[normalize-space()='" ++ text ++ "']"))) in Ev.
  destruct Ev as [p [P ->]].
  exact (evaluate_indexed doc _ p i r P N).
Qed.

Lemma interactive_selector :
  Mini.parseSelectorList (S (String.length (JS.join ", " INTERACTIVE_TAGS)))
                    (JS.join ", " INTERACTIVE_TAGS)
  = Some (map (fun t => {| Mini.c_type := Some t; Mini.c_parts := [] |}) INTERACTIVE_TAGS).
Proof. vm_compute. reflexivity. Qed.

Theorem tagsLaw : TagsLaw Mini.browser.
Proof.
  intros doc. cbn [querySelectorAll Mini.browser].
  unfold Mini.querySelectorAll. rewrite interactive_selector.
  f_equal. unfold interactiveElements. apply filter_ext. intros r.
  unfold Mini.matchesAny, isInteractive, DOM.localName.
  destruct (DOM.lookup doc r) as [n|]; [|reflexivity].
  unfold JS.listIncludes, INTERACTIVE_TAGS, Mini.matchesCompound. simpl.
  now rewrite !andb_true_r.
Qed.

End MiniFacts.

(* ================================================================== *)
(** * Theorems: the resolver *)
(* ================================================================== *)

Lemma C1_witness :
  let doc := parseFromString Mini.browser Pages.twoButtons in
  let loc := {| type := LocatorType.xpath;
                value := "(//button[normalize-space()='Go on'])[2]";
                score := 55 |} in
  generateLocator Mini.browser [1; 1] doc = Returns loc
  /\ exists r, locatorMatches Mini.browser doc loc = Returns [r].
Proof.
  intros doc loc.
  assert (G : generateLocator Mini.browser [1; 1] doc = Returns loc)
    by (vm_compute; reflexivity).
  split; [exact G|].
  apply (C1_returned_locator_is_unique Mini.browser [1; 1] doc loc
           MiniFacts.indexLaw G).
  simpl. discriminate.
Defined.

(** C5. An element whose id is not empty, has no digit and contains
    neither "ext" nor "gen", and whose selector [#id] selects exactly one
    node, gets the locator of kind [id] with that id as value and the
    score 100. *)
Theorem C5_stable_id_wins :
  forall (B : Browser) (el : NodeRef) (doc : Document) (id : string)
         (nodes : list NodeRef),
    DOM.getAttribute doc el "id" = Some id ->
    id <> EmptyString ->
    JS.existsChar JS.isDigit id = false ->
    JS.includes id "ext" = false ->
    JS.includes id "gen" = false ->
    querySelectorAll B doc ("#" ++ id) = Returns nodes ->
    List.length nodes = 1 ->
    generateLocator B el doc
    = Returns {| type := LocatorType.id; value := id; score := 100 |}.
Proof.
  intros B el doc id nodes Hid Hne Hdigit Hext Hgen Hq Hlen.
  unfold generateLocator. rewrite firstOf_app.
  unfold directStrategies. cbn [firstOf].
  unfold idStrategy, ifUniqueSelector. rewrite Hid. cbn [DOM.orEmpty].
  rewrite Hdigit, Hext, Hgen, Hq, Hlen.
  destruct id; [contradiction|]. reflexivity.
Qed.

Lemma C5_witness :
  generateLocator Mini.browser [1; 0]
    (parseFromString Mini.browser Pages.plainId)
  = Returns {| type := LocatorType.id; value := "username"; score := 100 |}.
Proof.
  apply (C5_stable_id_wins Mini.browser [1; 0]
           (parseFromString Mini.browser Pages.plainId) "username" [[1; 0]]);
    try (vm_compute; reflexivity).
  discriminate.
Defined.







(* ================================================================== *)
(** * Theorems: page naming and selector errors *)
(* ================================================================== *)




(** The count of a path query never throws: a query that the engine
    rejects counts for 0. *)
Lemma evaluateXpath_rejected (B : Browser) (doc : Document) (xpath : string)
      (e : Exception) :
  evaluate B doc xpath = Throws e -> evaluateXpath B xpath doc = 0.
Proof. unfold evaluateXpath. now intros ->. Qed.

(** The class block skips a class whose selector throws. *)
Lemma classStrategyLoop_skips (B : Browser) (doc : Document) (c : string)
      (rest : list string) (e : Exception) :
  querySelectorAll B doc ("." ++ c) = Throws e ->
  classStrategyLoop B doc (c :: rest) = classStrategyLoop B doc rest.
Proof. intros H. cbn [classStrategyLoop]. now rewrite H. Qed.

(** The id block does not: the exception of its selector leaves
    [generateLocator]. *)
Lemma idStrategy_throws (B : Browser) (el : NodeRef) (doc : Document)
      (id : string) (e : Exception) :
  DOM.getAttribute doc el "id" = Some id ->
  JS.truthy id = true ->
  JS.existsChar JS.isDigit id = false ->
  JS.includes id "ext" || JS.includes id "gen" = false ->
  querySelectorAll B doc ("#" ++ id) = Throws e ->
  generateLocator B el doc = Throws e.
Proof.
  intros Hid Ht Hd Hg Hq. unfold generateLocator. rewrite firstOf_app.
  unfold directStrategies. cbn [firstOf].
  unfold idStrategy, ifUniqueSelector. rewrite Hid. cbn [DOM.orEmpty].
  now rewrite Ht, Hd, Hg, Hq.
Qed.

(** C6, where the program departs from it.  On a page with
    [<input id="form:user">] the selector [#form:user] is malformed; the
    engine throws, [generateLocator] throws, and the whole analysis
    throws, where the class block and [evaluateXpath] would have gone on
    to the next strategy. *)
Theorem C6_id_selector_error_escapes :
  let doc := parseFromString Mini.browser Pages.colonId in
  DOM.getAttribute doc [1; 0] "id" = Some "form:user"
  /\ querySelectorAll Mini.browser doc "#form:user" = Throws SyntaxError
  /\ generateLocator Mini.browser [1; 0] doc = Throws SyntaxError
  /\ analyzeDomAndGenerateSchema Mini.browser (Mini.constantEntropy 0 "id")
       Pages.colonId Pages.shopUrl startWorld = Throws SyntaxError.
Proof. repeat split; vm_compute; reflexivity. Qed.

(* ================================================================== *)
(** * Proofs: the analysis *)
(* ================================================================== *)

Section AnalysisFacts.

Variable B : Browser.
Variable E : Entropy.

Lemma generateVarName_eq base tag w :
  generateVarName E base tag w
  = Returns (generatedName E base tag (randomCalls w), afterName base w).
Proof.
  unfold generateVarName, generatedName, afterName, bind, ret, drawRandom.
  destruct (JS.truthy (varNameOf base)); reflexivity.
Qed.

(** *** The flows *)

Lemma filter_names (f : string -> bool) (g : ElementDefinition -> bool)
      (els : list ElementDefinition) :
  (forall e, g e = f (el_name e)) ->
  map el_name (filter g els) = filter f (map el_name els).
Proof.
  intros H. induction els as [|e els IH]; simpl; [reflexivity|].
  rewrite H. destruct (f (el_name e)); simpl; now rewrite IH.
Qed.

Lemma nonempty_filter {A} (f : A -> bool) (l : list A) :
  (0 <? List.length (filter f l))%nat = existsb f l.
Proof.
  induction l as [|a l IH]; simpl; [reflexivity|].
  destruct (f a); simpl; [reflexivity|exact IH].
Qed.

Lemma existsb_names (f : string -> bool) (g : ElementDefinition -> bool)
      (els : list ElementDefinition) :
  (forall e, g e = f (el_name e)) ->
  existsb g els = existsb f (map el_name els).
Proof.
  intros H. induction els as [|e els IH]; simpl; [reflexivity|].
  now rewrite H, IH.
Qed.

Lemma firstName_names (els : list ElementDefinition) :
  firstName els = hd EmptyString (map el_name els).
Proof. now destruct els. Qed.

Lemma isUserInput_name e : isUserInput e = userLike (el_name e).
Proof. reflexivity. Qed.
Lemma isPassInput_name e : isPassInput e = passLike (el_name e).
Proof. reflexivity. Qed.
Lemma isSubmitBtn_name e : isSubmitBtn e = submitLike (el_name e).
Proof. reflexivity. Qed.
Lemma isSearchInput_name e : isSearchInput e = searchLike (el_name e).
Proof. reflexivity. Qed.

Lemma loginFlow_spec snakePage els w :
  exists ts w',
    loginFlow E snakePage els w = Returns (ts, w')
    /\ map eraseTestIds ts
       = if loginCondition (map el_name els)
         then [loginCase snakePage (map el_name els)] else [].
Proof.
  unfold loginFlow, loginCondition.
  rewrite !nonempty_filter.
  rewrite (existsb_names userLike isUserInput els isUserInput_name).
  rewrite (existsb_names passLike isPassInput els isPassInput_name).
  rewrite (existsb_names submitLike isSubmitBtn els isSubmitBtn_name).
  destruct (existsb userLike (map el_name els) && existsb passLike (map el_name els)
            && existsb submitLike (map el_name els)).
  - unfold bind, ret, step, drawUUID, bind, ret. cbn [uuidCalls randomCalls].
    eexists. eexists. split; [reflexivity|].
    unfold loginCase, bareTest, bareStep, eraseTestIds, eraseStepId.
    cbn [map tc_name tc_type tc_steps st_action st_value st_description].
    rewrite !firstName_names.
    rewrite (filter_names userLike isUserInput els isUserInput_name).
    rewrite (filter_names passLike isPassInput els isPassInput_name).
    rewrite (filter_names submitLike isSubmitBtn els isSubmitBtn_name).
    reflexivity.
  - eexists. eexists. split; reflexivity.
Qed.

Lemma searchFlow_spec snakePage els w :
  exists ts w',
    searchFlow E snakePage els w = Returns (ts, w')
    /\ map eraseTestIds ts
       = if searchCondition (map el_name els)
         then [searchCase snakePage (map el_name els)] else [].
Proof.
  unfold searchFlow, searchCondition.
  rewrite !nonempty_filter.
  rewrite (existsb_names searchLike isSearchInput els isSearchInput_name).
  destruct (existsb searchLike (map el_name els)).
  - unfold bind, ret, step, drawUUID, bind, ret. cbn [uuidCalls randomCalls].
    eexists. eexists. split; [reflexivity|].
    unfold searchCase, bareTest, bareStep, eraseTestIds, eraseStepId.
    cbn [map tc_name tc_type tc_steps st_action st_value st_description].
    rewrite !firstName_names.
    rewrite (filter_names searchLike isSearchInput els isSearchInput_name).
    reflexivity.
  - eexists. eexists. split; reflexivity.
Qed.

Lemma bind_returns {A C} (m : M A) (k : A -> M C) w a w1 :
  m w = Returns (a, w1) -> bind m k w = k a w1.
Proof. unfold bind. now intros ->. Qed.

Lemma drawUUID_eq w :
  drawUUID E w
  = Returns (randomUUID E (uuidCalls w),
             {| randomCalls := randomCalls w; uuidCalls := S (uuidCalls w) |}).
Proof. reflexivity. Qed.

Lemma step_eq a v d w :
  step E a v d w
  = Returns ({| st_id := randomUUID E (uuidCalls w); st_action := a;
                st_value := v; st_description := d |},
             {| randomCalls := randomCalls w; uuidCalls := S (uuidCalls w) |}).
Proof. reflexivity. Qed.

Lemma genericSteps_spec (els : list ElementDefinition) : forall w,
  exists steps w',
    mapM (fun el =>
            step E (if nameIncludes "input" el then input else click)
                 (if nameIncludes "input" el then Some "test_data" else None)
                 ("Interact with " ++ el_name el)) els w
    = Returns (steps, w')
    /\ map eraseStepId steps = map genericStep (map el_name els).
Proof.
  induction els as [|el els IH]; intros w.
  - exists [], w. split; reflexivity.
  - cbn [mapM]. rewrite (bind_returns _ _ _ _ _ (step_eq _ _ _ w)).
    destruct (IH {| randomCalls := randomCalls w; uuidCalls := S (uuidCalls w) |})
      as [steps [w' [Hm He]]].
    rewrite (bind_returns _ _ _ _ _ Hm). unfold ret.
    eexists. eexists. split; [reflexivity|].
    cbn [map]. rewrite He. reflexivity.
Qed.

Lemma genericFlow_spec snakePage generatedTests els w :
  exists ts w',
    genericFlow E snakePage generatedTests els w = Returns (ts, w')
    /\ map eraseTestIds ts
       = if (List.length generatedTests =? 0)%nat && (0 <? List.length els)%nat
         then [genericCase snakePage (map el_name els)] else [].
Proof.
  unfold genericFlow.
  destruct ((List.length generatedTests =? 0)%nat && (0 <? List.length els)%nat).
  - rewrite (bind_returns _ _ _ _ _ (drawUUID_eq w)).
    destruct (genericSteps_spec (JS.take 4 els)
                {| randomCalls := randomCalls w; uuidCalls := S (uuidCalls w) |})
      as [steps [w' [Hm He]]].
    rewrite (bind_returns _ _ _ _ _ Hm). unfold ret.
    eexists. eexists. split; [reflexivity|].
    unfold genericCase, bareTest, eraseTestIds.
    cbn [map tc_name tc_type tc_steps]. rewrite He.
    unfold JS.take. now rewrite firstn_map.
  - eexists. eexists. split; reflexivity.
Qed.

Lemma generateTests_spec derivedName els w :
  exists ts w',
    generateTests E derivedName els w = Returns (ts, w')
    /\ map eraseTestIds ts = expectedTests derivedName (map el_name els).
Proof.
  unfold generateTests.
  destruct (loginFlow_spec (snakeCase derivedName) els w) as [l [w1 [Hl El]]].
  destruct (searchFlow_spec (snakeCase derivedName) els w1) as [s [w2 [Hs Es]]].
  destruct (genericFlow_spec (snakeCase derivedName) (l ++ s)%list els w2)
    as [g [w3 [Hg Eg]]].
  unfold bind at 1. rewrite Hl. unfold bind at 1. rewrite Hs.
  unfold bind at 1. rewrite Hg. unfold ret.
  eexists. eexists. split; [reflexivity|].
  rewrite !map_app, El, Es, Eg. unfold expectedTests.
  rewrite <- app_assoc. f_equal. f_equal.
  assert (L : List.length (l ++ s)%list
              = List.length (map eraseTestIds l ++ map eraseTestIds s)%list)
    by now rewrite <- map_app, length_map.
  rewrite L, El, Es, length_map.
  destruct (loginCondition (map el_name els)),
           (searchCondition (map el_name els)), els; reflexivity.
Qed.

(** *** The scraping loop *)

(** One round of the loop, spelled out. *)
Lemma scrapeElement_eq doc acc el w :
  scrapeElement B E doc acc el w
  = if isHiddenInput doc el then Returns (acc, w)
    else
      match generateLocator B el doc with
      | Throws e => Throws e
      | Returns loc =>
          let base := cleanText (nameBaseOf doc el) in
          let name := generatedName E base (JS.toLowerCase (DOM.tagName doc el))
                                    (randomCalls w) in
          let w1 := afterName base w in
          if existsb (hasName name) acc then Returns (acc, w1)
          else Returns
                 ((acc ++ [{| el_id := randomUUID E (uuidCalls w1);
                              el_name := name;
                              el_locatorType := type loc;
                              el_locatorValue := value loc;
                              el_description :=
                                "Auto-generated for <"
                                  ++ JS.toLowerCase (DOM.tagName doc el) ++ ">" |}])%list,
                  {| randomCalls := randomCalls w1; uuidCalls := S (uuidCalls w1) |})
      end.
Proof.
  unfold scrapeElement, isHiddenInput.
  destruct (String.eqb (DOM.tagName doc el) "INPUT"
            && String.eqb (DOM.inputType doc el) "hidden"); [reflexivity|].
  unfold bind at 1, lift.
  destruct (generateLocator B el doc) as [loc|e]; [|reflexivity].
  rewrite (bind_returns _ _ _ _ _ (generateVarName_eq _ _ w)). cbv zeta.
  destruct (existsb _ acc); reflexivity.
Qed.

Lemma candidates_cons doc el rest w :
  candidates B E doc (el :: rest) w
  = if isHiddenInput doc el then candidates B E doc rest w
    else
      match generateLocator B el doc with
      | Throws e => Throws e
      | Returns loc =>
          let base := cleanText (nameBaseOf doc el) in
          let name := generatedName E base (JS.toLowerCase (DOM.tagName doc el))
                                    (randomCalls w) in
          match candidates B E doc rest (afterName base w) with
          | Returns (cs, w') => Returns (candidateOf doc el loc name :: cs, w')
          | Throws e => Throws e
          end
      end.
Proof.
  cbn [candidates]. destruct (isHiddenInput doc el); [reflexivity|].
  unfold bind at 1, lift.
  destruct (generateLocator B el doc) as [loc|e]; [|reflexivity].
  rewrite (bind_returns _ _ _ _ _ (generateVarName_eq _ _ w)). cbv zeta.
  unfold bind, ret.
  destruct (candidates B E doc rest _) as [[cs w']|e]; reflexivity.
Qed.

Lemma hasName_listIncludes name (acc : list ElementDefinition) :
  existsb (hasName name) acc = JS.listIncludes (map el_name acc) name.
Proof.
  unfold JS.listIncludes, hasName.
  induction acc as [|e acc IH]; simpl; [reflexivity|].
  now rewrite IH, String.eqb_sym.
Qed.

Lemma afterName_randomCalls base w1 w2 :
  randomCalls w1 = randomCalls w2 ->
  randomCalls (afterName base w1) = randomCalls (afterName base w2).
Proof.
  unfold afterName. destruct (JS.truthy (varNameOf base)); simpl; congruence.
Qed.

(** The loop keeps the candidates whose name is new: whatever the array
    at the start, the array at the end is the array at the start followed
    by the first occurrences among the candidates of the nodes, and the
    loop throws exactly when the computation of the candidates throws. *)
Lemma forEach_firstOccurrences doc nodes : forall acc w1 w2,
  randomCalls w1 = randomCalls w2 ->
  match forEach nodes (scrapeElement B E doc) acc w1,
        candidates B E doc nodes w2 with
  | Returns (els, _), Returns (cands, _) =>
      map eraseElementId els
      = (map eraseElementId acc
           ++ firstOccurrences (map el_name acc) cands)%list
  | Throws e1, Throws e2 => e1 = e2
  | _, _ => False
  end.
Proof.
  induction nodes as [|el rest IH]; intros acc w1 w2 Hw.
  - cbn. now rewrite app_nil_r.
  - cbn [forEach]. rewrite candidates_cons.
    unfold bind at 1. rewrite scrapeElement_eq.
    destruct (isHiddenInput doc el); [now apply IH|].
    destruct (generateLocator B el doc) as [loc|e]; [|reflexivity].
    cbv zeta. rewrite <- Hw.
    set (base := cleanText (nameBaseOf doc el)).
    set (name := generatedName E base _ (randomCalls w1)).
    rewrite hasName_listIncludes.
    destruct (JS.listIncludes (map el_name acc) name) eqn:Seen.
    + specialize (IH acc (afterName base w1) (afterName base w2)
                     (afterName_randomCalls base w1 w2 Hw)).
      destruct (forEach rest _ acc _) as [[els w1']|e1];
        destruct (candidates B E doc rest _) as [[cs w2']|e2]; try exact IH.
      cbn [firstOccurrences candidateOf el_name]. now rewrite Seen.
    + match goal with
      | |- context [forEach rest _ ?acc' ?w1'] =>
          specialize (IH acc' w1' (afterName base w2)
                         (afterName_randomCalls base w1 w2 Hw))
      end.
      destruct (forEach rest _ _ _) as [[els w1']|e1];
        destruct (candidates B E doc rest _) as [[cs w2']|e2]; try exact IH.
      cbn [firstOccurrences candidateOf el_name]. rewrite Seen.
      rewrite IH, !map_app. cbn [map eraseElementId el_name el_locatorType
                                  el_locatorValue el_description].
      rewrite <- app_assoc. reflexivity.
Qed.


(** *** The whole analysis *)

(** What a run that returns went through. *)
Lemma analyze_returns html url w p w' :
  analyzeDomAndGenerateSchema B E html url w = Returns (p, w') ->
  let doc := parseFromString B html in
  exists nodes els w1 pageId,
    querySelectorAll B doc (JS.join ", " INTERACTIVE_TAGS) = Returns nodes
    /\ forEach nodes (scrapeElement B E doc) [] w = Returns (els, w1)
    /\ pages p = [{| pg_id := pageId; pg_name := derivePageName B doc url;
                     pg_elements := els |}]
    /\ map eraseTestIds (tests p)
       = expectedTests (derivePageName B doc url) (map el_name els).
Proof.
  unfold analyzeDomAndGenerateSchema. cbv zeta. unfold bind at 1, lift.
  destruct (querySelectorAll B _ _) as [nodes|e] eqn:Q; [|discriminate].
  unfold bind at 1.
  destruct (forEach nodes _ [] w) as [[els w1]|e] eqn:F; [|discriminate].
  destruct (generateTests_spec (derivePageName B (parseFromString B html) url) els w1)
    as [ts [w2 [Ht Et]]].
  rewrite (bind_returns _ _ _ _ _ Ht).
  rewrite (bind_returns _ _ _ _ _ (drawUUID_eq w2)). unfold ret.
  intros H. inv H. exists nodes, els, w1. eexists.
  split; [reflexivity|]. split; [exact F|]. split; [reflexivity|]. exact Et.
Qed.

End AnalysisFacts.

(* ================================================================== *)
(** * Proofs: generated names are in lower case *)
(* ================================================================== *)

Lemma mapChars_app f a b :
  JS.mapChars f (a ++ b) = JS.mapChars f a ++ JS.mapChars f b.
Proof. induction a as [|c a IH]; simpl; [reflexivity|now rewrite IH]. Qed.

Lemma lowerFixed_app a b : lowerFixed a -> lowerFixed b -> lowerFixed (a ++ b).
Proof.
  unfold lowerFixed, JS.toLowerCase. intros Ha Hb.
  now rewrite mapChars_app, Ha, Hb.
Qed.

Lemma lowerFixed_cons c s :
  lowerFixed (String c s) <-> JS.lowerChar c = c /\ lowerFixed s.
Proof.
  unfold lowerFixed, JS.toLowerCase. simpl. split.
  - intros H. inv H. split; congruence.
  - intros [Hc Hs]. now rewrite Hc, Hs.
Qed.

Lemma lowerChar_idem c : JS.lowerChar (JS.lowerChar c) = JS.lowerChar c.
Proof. destruct c as [[] [] [] [] [] [] [] []]; reflexivity. Qed.

Lemma lowerChar_sanitized c :
  JS.lowerChar (if JS.isLowerAlnum c then c else "_"%char)
  = if JS.isLowerAlnum c then c else "_"%char.
Proof. destruct c as [[] [] [] [] [] [] [] []]; reflexivity. Qed.

Lemma lowerChar_digit c : JS.isDigit c = true -> JS.lowerChar c = c.
Proof. destruct c as [[] [] [] [] [] [] [] []]; (reflexivity || discriminate). Qed.

Lemma lowerFixed_toLowerCase s : lowerFixed (JS.toLowerCase s).
Proof.
  unfold lowerFixed, JS.toLowerCase.
  induction s as [|c s IH]; simpl; [reflexivity|].
  now rewrite lowerChar_idem, IH.
Qed.

Lemma lowerFixed_sanitized s :
  lowerFixed (JS.mapChars (fun c => if JS.isLowerAlnum c then c else "_"%char) s).
Proof.
  unfold lowerFixed, JS.toLowerCase.
  induction s as [|c s IH]; simpl; [reflexivity|].
  now rewrite lowerChar_sanitized, IH.
Qed.

Lemma lowerFixed_digits s : JS.forallChar JS.isDigit s = true -> lowerFixed s.
Proof.
  unfold lowerFixed, JS.toLowerCase.
  induction s as [|c s IH]; simpl; [reflexivity|].
  intros H. apply andb_true_iff in H. destruct H as [Hc Hs].
  now rewrite (lowerChar_digit c Hc), (IH Hs).
Qed.

Lemma lowerFixed_dropWhile p s : lowerFixed s -> lowerFixed (JS.dropWhile p s).
Proof.
  induction s as [|c s IH]; simpl; [auto|].
  intros H. destruct (p c); [|exact H].
  apply IH. now apply lowerFixed_cons in H.
Qed.

Lemma lowerFixed_rev s : lowerFixed s -> lowerFixed (JS.rev s).
Proof.
  induction s as [|c s IH]; simpl; [auto|].
  intros H. apply lowerFixed_cons in H. destruct H as [Hc Hs].
  apply lowerFixed_app; [now apply IH|]. apply lowerFixed_cons. now split.
Qed.

Lemma lowerFixed_varNameOf base : lowerFixed (varNameOf base).
Proof.
  unfold varNameOf, JS.dropWhileEnd.
  apply lowerFixed_rev, lowerFixed_dropWhile, lowerFixed_rev,
        lowerFixed_dropWhile, lowerFixed_sanitized.
Qed.

Lemma lowerFixed_generatedName E base tag k :
  lowerFixed (generatedName E base (JS.toLowerCase tag) k).
Proof.
  unfold generatedName.
  apply lowerFixed_app; [|apply lowerFixed_app;
                           [reflexivity|apply lowerFixed_toLowerCase]].
  destruct (JS.truthy (varNameOf base)); [apply lowerFixed_varNameOf|].
  apply lowerFixed_app; [reflexivity|].
  apply lowerFixed_digits. unfold JS.ofNat. apply MiniFacts.digits_ofUint.
Qed.


(* ================================================================== *)
(** * Theorems: the element list *)
(* ================================================================== *)

Lemma forEach_origin B E doc nodes : forall acc w els w',
  forEach nodes (scrapeElement B E doc) acc w = Returns (els, w') ->
  forall e, In e els ->
    In e acc \/ exists el, In el nodes /\ comesFrom E doc el e.
Proof.
  induction nodes as [|el rest IH]; intros acc w els w' H e He.
  - cbn in H. inv H. now left.
  - cbn [forEach] in H. unfold bind in H. rewrite scrapeElement_eq in H.
    destruct (isHiddenInput doc el) eqn:Hid.
    + destruct (IH _ _ _ _ H e He) as [Ha|[el' [Hin Hc]]]; [now left|].
      right. exists el'. split; [now right|exact Hc].
    + destruct (generateLocator B el doc) as [loc|ex]; [|discriminate].
      cbv zeta in H. destruct (existsb _ acc).
      * destruct (IH _ _ _ _ H e He) as [Ha|[el' [Hin Hc]]]; [now left|].
        right. exists el'. split; [now right|exact Hc].
      * destruct (IH _ _ _ _ H e He) as [Ha|[el' [Hin Hc]]].
        -- apply in_app_or in Ha. destruct Ha as [Ha|[<-|[]]]; [now left|].
           right. exists el. split; [now left|].
           split; [exact Hid|]. split; [reflexivity|]. eexists. reflexivity.
        -- right. exists el'. split; [now right|exact Hc].
Qed.

Lemma names_erased (els : list ElementDefinition) :
  map el_name (map eraseElementId els) = map el_name els.
Proof. rewrite map_map. apply map_ext. reflexivity. Qed.



Lemma interactive_tag_roundtrip t :
  In t INTERACTIVE_TAGS -> JS.toLowerCase (JS.toUpperCase t) = t.
Proof.
  unfold INTERACTIVE_TAGS. simpl.
  intros [<-|[<-|[<-|[<-|[<-|[]]]]]]; reflexivity.
Qed.




(* ================================================================== *)
(** * Theorems: the flows *)
(* ================================================================== *)

Lemma append_cancel (s a b : string) : s ++ a = s ++ b -> a = b.
Proof.
  induction s as [|c s IH]; simpl; intros H; [exact H|].
  inv H. now apply IH.
Qed.

Lemma test_names_differ pageName :
  loginTestName pageName <> searchTestName pageName
  /\ loginTestName pageName <> genericTestName pageName
  /\ searchTestName pageName <> genericTestName pageName.
Proof.
  unfold loginTestName, searchTestName, genericTestName.
  repeat split; intros H;
    apply append_cancel in H; apply append_cancel in H; discriminate.
Qed.

Lemma hasTest_erased name p :
  hasTest name p <-> exists t, In t (map eraseTestIds (tests p)) /\ tc_name t = name.
Proof.
  unfold hasTest. split.
  - intros [t [Hin Hn]]. exists (eraseTestIds t). split; [|exact Hn].
    now apply in_map.
  - intros [t [Hin Hn]]. apply in_map_iff in Hin.
    destruct Hin as [t0 [<- Hin]]. exists t0. split; [exact Hin|exact Hn].
Qed.

(** The test cases of [expectedTests], one by one. *)
Lemma expectedTests_inv derivedName names t :
  In t (expectedTests derivedName names) <->
  (loginCondition names = true
   /\ t = loginCase (snakeCase derivedName) names)
  \/ (searchCondition names = true
      /\ t = searchCase (snakeCase derivedName) names)
  \/ (loginCondition names = false /\ searchCondition names = false
      /\ names <> []
      /\ t = genericCase (snakeCase derivedName) names).
Proof.
  unfold expectedTests. cbv zeta.
  destruct (loginCondition names), (searchCondition names), names as [|n names];
    cbn; split; intros H;
    repeat match goal with
           | H : _ \/ _ |- _ => destruct H as [H|H]
           | H : _ /\ _ |- _ => destruct H
           | H : False |- _ => contradiction
           end;
    subst; try discriminate; try contradiction; auto 10.
  all: try (right; right; repeat split; auto; discriminate).
Qed.

Lemma analysis_shape B E html url w p w' :
  analyzeDomAndGenerateSchema B E html url w = Returns (p, w') ->
  exists pg els,
    pages p = [pg] /\ pg_elements pg = els
    /\ pg_name pg = derivePageName B (parseFromString B html) url
    /\ (forall t, In t (map eraseTestIds (tests p)) <->
                  In t (expectedTests (pg_name pg) (map el_name els)))
    /\ (forall e, In e els -> lowerFixed (el_name e)).
Proof.
  intros H.
  destruct (analyze_returns B E html url w p w' H)
    as [nodes [els [w1 [pageId [Q [F [P T]]]]]]].
  eexists. exists els. split; [exact P|]. split; [reflexivity|].
  split; [reflexivity|]. split.
  - intros t. cbn [pg_name]. now rewrite T.
  - intros e He.
    destruct (forEach_origin B E _ _ _ _ _ _ F e He)
      as [[]|[el [_ [_ [_ [k Hn]]]]]].
    rewrite Hn. apply lowerFixed_generatedName.
Qed.



Lemma mentions_lower keywords e :
  lowerFixed (el_name e) ->
  mentions keywords e = existsb (JS.includes (el_name e)) keywords.
Proof. unfold mentions, lowerFixed. now intros ->. Qed.

Lemma existsb_in_names (g : ElementDefinition -> bool) (f : string -> bool)
      (els : list ElementDefinition) :
  (forall e, In e els -> g e = f (el_name e)) ->
  existsb g els = existsb f (map el_name els).
Proof.
  induction els as [|e els IH]; intros H; simpl; [reflexivity|].
  rewrite (H e (or_introl eq_refl)), IH; [reflexivity|].
  intros e' He'. apply H. now right.
Qed.

Lemma firstMention_names keywords (f : string -> bool)
      (els : list ElementDefinition) :
  (forall e, In e els -> mentions keywords e = f (el_name e)) ->
  firstMention keywords els = hd EmptyString (filter f (map el_name els)).
Proof.
  unfold firstMention.
  induction els as [|e els IH]; intros H; simpl; [reflexivity|].
  rewrite (H e (or_introl eq_refl)).
  destruct (f (el_name e)); [reflexivity|].
  apply IH. intros e' He'. apply H. now right.
Qed.

Lemma stepShape_erased (steps : list TestStep) :
  map stepShape (map eraseStepId steps) = map stepShape steps.
Proof. rewrite map_map. apply map_ext. reflexivity. Qed.

Section LoginKeywords.

Variable els : list ElementDefinition.
Hypothesis lower : forall e, In e els -> lowerFixed (el_name e).

Lemma userLike_mentions e :
  In e els -> mentions ["user"; "email"; "login"] e = userLike (el_name e).
Proof.
  intros He. rewrite (mentions_lower _ _ (lower e He)). unfold userLike.
  cbn [existsb]. now rewrite orb_false_r, orb_assoc.
Qed.

Lemma passLike_mentions e :
  In e els -> mentions ["pass"] e = passLike (el_name e).
Proof.
  intros He. rewrite (mentions_lower _ _ (lower e He)). unfold passLike.
  cbn [existsb]. now rewrite orb_false_r.
Qed.

Lemma submitLike_mentions e :
  In e els -> mentions ["submit"; "login"; "sign_in"] e = submitLike (el_name e).
Proof.
  intros He. rewrite (mentions_lower _ _ (lower e He)). unfold submitLike.
  cbn [existsb]. now rewrite orb_false_r, orb_assoc.
Qed.

Lemma loginDetected_condition :
  loginDetected els = loginCondition (map el_name els).
Proof.
  unfold loginDetected, loginCondition.
  rewrite (existsb_in_names _ userLike els userLike_mentions).
  rewrite (existsb_in_names _ passLike els passLike_mentions).
  rewrite (existsb_in_names _ submitLike els submitLike_mentions).
  reflexivity.
Qed.

End LoginKeywords.

(** C7. The login test is in the result exactly when some element name
    mentions "user", "email" or "login", some name mentions "pass" and
    some name mentions "submit", "login" or "sign_in", the case of the
    letters being of no account; it has four steps, in this order: input
    into the first name of the first kind, input into the first name of
    the second kind, click on the first name of the third kind, and the
    assertion that "dashboard" is visible. *)
Theorem C7_login_flow :
  forall (B : Browser) (E : Entropy) (html url : string) (w w' : World)
         (p : Project),
    analyzeDomAndGenerateSchema B E html url w = Returns (p, w') ->
    exists pg,
      pages p = [pg]
      /\ (hasTest (loginTestName (pg_name pg)) p
          <-> loginDetected (pg_elements pg) = true)
      /\ forall t,
           In t (tests p) -> tc_name t = loginTestName (pg_name pg) ->
           map stepShape (tc_steps t)
           = [(input, Some "standard_user",
               "Enter username into "
                 ++ firstMention ["user"; "email"; "login"] (pg_elements pg));
              (input, Some "secret_sauce",
               "Enter password into "
                 ++ firstMention ["pass"] (pg_elements pg));
              (click, Some EmptyString,
               "Click "
                 ++ firstMention ["submit"; "login"; "sign_in"] (pg_elements pg));
              (assert_visible, Some "dashboard",
               "Verify successful login location")].
Proof.
  intros B E html url w w' p H.
  destruct (analysis_shape B E html url w p w' H)
    as [pg [els [P [Hels [_ [T L]]]]]].
  exists pg. split; [exact P|]. rewrite Hels.
  destruct (test_names_differ (pg_name pg)) as [LS [LG SG]].
  rewrite (loginDetected_condition els L). split.
  - rewrite hasTest_erased. split.
    + intros [t [Hin Hn]]. apply T, expectedTests_inv in Hin.
      destruct Hin as [[C _]|[[_ ->]|[_ [_ [_ ->]]]]]; [exact C| |].
      * cbn in Hn. symmetry in Hn. now apply LS in Hn.
      * cbn in Hn. symmetry in Hn. now apply LG in Hn.
    + intros C. eexists. split;
        [apply T, expectedTests_inv; left; split; [exact C|reflexivity]|].
      reflexivity.
  - intros t Hin Hn.
    assert (Hin' : In (eraseTestIds t) (map eraseTestIds (tests p)))
      by now apply in_map.
    apply T, expectedTests_inv in Hin'.
    destruct Hin' as [[_ Ht]|[[_ Ht]|[_ [_ [_ Ht]]]]].
    + rewrite <- stepShape_erased.
      change (map eraseStepId (tc_steps t)) with (tc_steps (eraseTestIds t)).
      rewrite Ht. cbn [loginCase bareTest tc_steps map stepShape bareStep
                         st_action st_value st_description].
      rewrite (firstMention_names _ userLike els (userLike_mentions els L)).
      rewrite (firstMention_names _ passLike els (passLike_mentions els L)).
      rewrite (firstMention_names _ submitLike els (submitLike_mentions els L)).
      reflexivity.
    + apply (f_equal tc_name) in Ht. cbn in Ht. rewrite Hn in Ht.
      now apply LS in Ht.
    + apply (f_equal tc_name) in Ht. cbn in Ht. rewrite Hn in Ht.
      now apply LG in Ht.
Qed.

Lemma C7_witness :
  exists p w' pg,
    analyzeDomAndGenerateSchema Mini.browser (Mini.constantEntropy 0 "id")
      Pages.login Pages.shopUrl startWorld = Returns (p, w')
    /\ pages p = [pg]
    /\ map el_name (pg_elements pg)
       = ["username_input"; "password_input"; "submit_button"]
    /\ loginDetected (pg_elements pg) = true
    /\ hasTest (loginTestName (pg_name pg)) p.
Proof.
  destruct (analyzeDomAndGenerateSchema Mini.browser (Mini.constantEntropy 0 "id")
              Pages.login Pages.shopUrl startWorld) as [[p w']|e] eqn:R;
    [|vm_compute in R; discriminate].
  destruct (C7_login_flow Mini.browser (Mini.constantEntropy 0 "id")
              Pages.login Pages.shopUrl startWorld w' p R)
    as [pg [P [Iff _]]].
  exists p, w', pg. split; [reflexivity|]. split; [exact P|].
  vm_compute in R. inv R. cbn in P. inv P.
  split; [reflexivity|].
  split; [vm_compute; reflexivity|].
  apply Iff. vm_compute. reflexivity.
Defined.

(* ================================================================== *)
(** * Theorems: determinism *)
(* ================================================================== *)

(** The analysis, block by block. *)
Lemma analyze_eq B E html url w :
  analyzeDomAndGenerateSchema B E html url w
  = let doc := parseFromString B html in
    match querySelectorAll B doc (JS.join ", " INTERACTIVE_TAGS) with
    | Throws e => Throws e
    | Returns nodes =>
        match forEach nodes (scrapeElement B E doc) [] w with
        | Throws e => Throws e
        | Returns (els, w1) =>
            match generateTests E (derivePageName B doc url) els w1 with
            | Throws e => Throws e
            | Returns (ts, w2) =>
                Returns ({| pages :=
                              [{| pg_id := randomUUID E (uuidCalls w2);
                                  pg_name := derivePageName B doc url;
                                  pg_elements := els |}];
                            tests := ts |},
                         {| randomCalls := randomCalls w2;
                            uuidCalls := S (uuidCalls w2) |})
            end
        end
    end.
Proof.
  unfold analyzeDomAndGenerateSchema. cbv zeta. unfold bind at 1, lift.
  destruct (querySelectorAll B _ _) as [nodes|e]; [|reflexivity].
  unfold bind at 1.
  destruct (forEach nodes _ [] w) as [[els w1]|e]; [|reflexivity].
  unfold bind at 1.
  destruct (generateTests E _ els w1) as [[ts w2]|e]; reflexivity.
Qed.





(* ================================================================== *)
(** * Further properties: page names *)
(* ================================================================== *)

Lemma string_app_nil (s : string) : s ++ "" = s.
Proof. induction s as [|c s IH]; simpl; [reflexivity|now rewrite IH]. Qed.

Lemma string_app_assoc (a b c : string) : (a ++ b) ++ c = a ++ (b ++ c).
Proof. induction a as [|x a IH]; simpl; [reflexivity|now rewrite IH]. Qed.

Lemma string_app_length (a b : string) :
  String.length (a ++ b) = String.length a + String.length b.
Proof. induction a as [|x a IH]; simpl; [reflexivity|now rewrite IH]. Qed.

Lemma rev_app (a b : string) : JS.rev (a ++ b) = JS.rev b ++ JS.rev a.
Proof.
  induction a as [|x a IH]; simpl.
  - now rewrite string_app_nil.
  - now rewrite IH, string_app_assoc.
Qed.

Lemma rev_involutive (s : string) : JS.rev (JS.rev s) = s.
Proof.
  induction s as [|x s IH]; simpl; [reflexivity|].
  now rewrite rev_app, IH.
Qed.

Lemma rev_length (s : string) : String.length (JS.rev s) = String.length s.
Proof.
  induction s as [|x s IH]; simpl; [reflexivity|].
  rewrite string_app_length, IH. simpl. lia.
Qed.

Lemma prefix_app (p s : string) : String.prefix p (p ++ s) = true.
Proof.
  induction p as [|x p IH]; simpl; [now destruct s|].
  destruct (Ascii.ascii_dec x x); [exact IH|contradiction].
Qed.

Lemma prefix_split (p : string) : forall s,
  String.prefix p s = true -> exists r, s = p ++ r.
Proof.
  induction p as [|x p IH]; intros s H.
  - exists s. reflexivity.
  - destruct s as [|y s]; [discriminate|]. simpl in H.
    destruct (Ascii.ascii_dec x y) as [->|]; [|discriminate].
    destruct (IH s H) as [r ->]. now exists r.
Qed.

Lemma endsWith_app (s p : string) : JS.endsWith (s ++ p) p = true.
Proof. unfold JS.endsWith. rewrite rev_app. apply prefix_app. Qed.

Lemma endsWith_split (s p : string) :
  JS.endsWith s p = true -> exists stem, s = stem ++ p.
Proof.
  unfold JS.endsWith. intros H. apply prefix_split in H. destruct H as [r Hr].
  exists (JS.rev r). rewrite <- (rev_involutive s), Hr, rev_app.
  now rewrite rev_involutive.
Qed.

Lemma substring0_length (n : nat) : forall s,
  String.length (JS.substring0 n s) <= n.
Proof.
  unfold JS.substring0.
  induction n as [|n IH]; intros [|c s]; simpl; try lia.
  specialize (IH s). lia.
Qed.

(** [finishName] cuts to twenty characters before it looks at the
    suffix. *)
Lemma finishName_shape (derivedName : string) :
  exists stem,
    finishName derivedName = stem ++ "Page" /\ String.length stem <= 20.
Proof.
  unfold finishName. cbv zeta.
  set (d1 := if negb (JS.truthy derivedName) then "HomePage" else derivedName).
  set (d2 := if (20 <? String.length d1)%nat then JS.substring0 20 d1 else d1).
  assert (L : String.length d2 <= 20).
  { unfold d2. destruct (20 <? String.length d1)%nat eqn:C.
    - apply substring0_length.
    - apply Nat.ltb_ge in C. exact C. }
  destruct (JS.endsWith d2 "Page") eqn:Ends; cbn [negb].
  - destruct (endsWith_split _ _ Ends) as [stem Hs]. exists stem.
    split; [exact Hs|]. rewrite Hs, string_app_length in L. lia.
  - exists d2. split; [reflexivity|exact L].
Qed.

(** X1. The page name always ends in "Page", and what stands before the
    suffix has at most twenty characters: the name is never empty and
    never longer than twenty-four characters, whatever the URL and the
    title, and also when the URL does not parse. *)
Theorem page_name_ends_in_Page :
  forall (B : Browser) (doc : Document) (url : string),
    exists stem,
      derivePageName B doc url = stem ++ "Page"
      /\ String.length stem <= 20
      /\ JS.endsWith (derivePageName B doc url) "Page" = true
      /\ 4 <= String.length (derivePageName B doc url) <= 24.
Proof.
  intros B doc url.
  assert (S : exists stem, derivePageName B doc url = stem ++ "Page"
                           /\ String.length stem <= 20).
  { unfold derivePageName. cbv zeta.
    destruct (newURL B url) as [urlObj|e].
    - apply finishName_shape.
    - destruct (JS.truthy (DOM.title doc)).
      + eexists. split; [reflexivity|].
        destruct (15 <? String.length _)%nat eqn:C.
        * pose proof (substring0_length 15
                        (JS.filterChars JS.isAlnum (DOM.title doc))). lia.
        * apply Nat.ltb_ge in C. lia.
      + exists "Home". split; [reflexivity|simpl; lia]. }
  destruct S as [stem [Hs L]]. exists stem.
  split; [exact Hs|]. split; [exact L|]. rewrite Hs.
  split; [apply endsWith_app|]. rewrite string_app_length. simpl. lia.
Qed.

(* ================================================================== *)
(** * Further properties: where exceptions come from *)
(* ================================================================== *)

Section ExceptionFacts.

Variable B : Browser.

Lemma ifUniqueSelector_throws doc selector t v s e :
  ifUniqueSelector B doc selector t v s = Throws e ->
  querySelectorAll B doc selector = Throws e.
Proof.
  unfold ifUniqueSelector, found, fallThrough.
  destruct (querySelectorAll B doc selector) as [ns|x]; [|congruence].
  destruct (List.length ns =? 1)%nat; discriminate.
Qed.

Lemma cssStrategyLoop_throws el doc attrs e :
  cssStrategyLoop B el doc attrs = Throws e ->
  exists attr,
    In attr attrs /\ JS.listIncludes ["id"; "class"; "name"] attr = false
    /\ querySelectorAll B doc (attributeSelector doc el attr) = Throws e.
Proof.
  induction attrs as [|attr rest IH]; cbn [cssStrategyLoop]; [discriminate|].
  destruct (JS.listIncludes ["id"; "class"; "name"] attr) eqn:Skip.
  - intros H. destruct (IH H) as [a [Hin Ha]]. exists a. split; [now right|exact Ha].
  - cbv zeta. destruct (JS.truthy _).
    + match goal with
      | |- context [ifUniqueSelector B doc ?sel ?t ?v ?s] =>
          destruct (ifUniqueSelector B doc sel t v s) as [[l|]|x] eqn:U
      end; try discriminate.
      * intros H. destruct (IH H) as [a [Hin Ha]].
        exists a. split; [now right|exact Ha].
      * intros H. inv H. exists attr. split; [now left|]. split; [exact Skip|].
        apply ifUniqueSelector_throws in U. exact U.
    + intros H. destruct (IH H) as [a [Hin Ha]].
      exists a. split; [now right|exact Ha].
Qed.

Lemma classStrategyLoop_no_throw doc classes e :
  classStrategyLoop B doc classes <> Throws e.
Proof.
  induction classes as [|c rest IH]; cbn [classStrategyLoop]; [discriminate|].
  destruct (querySelectorAll B doc _) as [ns|x]; [|exact IH].
  destruct (List.length ns =? 1)%nat; [discriminate|exact IH].
Qed.

Lemma textXPathStrategy_no_throw el doc e :
  textXPathStrategy B el doc <> Throws e.
Proof.
  unfold textXPathStrategy, found, fallThrough, evaluateXpath. cbv zeta.
  destruct (JS.truthy _ && _ && _); [|discriminate].
  destruct (evaluate B doc _) as [ns|x]; [|discriminate].
  destruct (List.length ns =? 1)%nat; [discriminate|].
  destruct (1 <? List.length ns)%nat; [|discriminate].
  destruct (snapshotIndex el ns 0); discriminate.
Qed.

Lemma firstOf_throws blocks el doc otherwise e :
  firstOf blocks el doc otherwise = Throws e ->
  (exists block, In block blocks /\ block el doc = Throws e)
  \/ otherwise = Throws e.
Proof.
  induction blocks as [|b rest IH]; cbn [firstOf]; intros H; [now right|].
  destruct (b el doc) as [[l|]|x] eqn:Eb.
  - discriminate.
  - destruct (IH H) as [[b' [Hin Hb']]|Ho]; [left|now right].
    exists b'. split; [now right|exact Hb'].
  - inv H. left. exists b. split; [now left|exact Eb].
Qed.

End ExceptionFacts.

Lemma generateLocator_selector_of_throw :
  forall (B : Browser) (el : NodeRef) (doc : Document) (e : Exception),
    generateLocator B el doc = Throws e ->
    exists selector,
      In selector (unguardedSelectors doc el)
      /\ querySelectorAll B doc selector = Throws e.
Proof.
  intros B el doc e H. unfold generateLocator in H.
  apply firstOf_throws in H. destruct H as [[block [Hin Hb]]|H]; [|discriminate].
  apply in_app_or in Hin. simpl in Hin.
  repeat match type of Hin with
         | _ \/ _ => destruct Hin as [Hin|Hin]
         end; subst; try contradiction.
  - unfold idStrategy in Hb. split_if Hb; [|discriminate].
    apply ifUniqueSelector_throws in Hb. eexists. split; [|exact Hb]. now left.
  - unfold nameStrategy in Hb. split_if Hb; [|discriminate].
    apply ifUniqueSelector_throws in Hb. eexists. split; [|exact Hb].
    right. now left.
  - unfold linkTextStrategy, found, fallThrough in Hb.
    repeat (split_if Hb; try discriminate).
  - unfold partialLinkTextStrategy, found, fallThrough in Hb.
    repeat (split_if Hb; try discriminate).
  - apply cssStrategyLoop_throws in Hb. destruct Hb as [attr [Hin [Skip Hq]]].
    exists (attributeSelector doc el attr). split; [|exact Hq].
    right. right. apply in_map.
    unfold ATTRIBUTE_PRIORITY in Hin. simpl in Hin.
    repeat match type of Hin with
           | _ \/ _ => destruct Hin as [Hin|Hin]
           end; subst; try contradiction; try discriminate; simpl; auto 10.
  - unfold classStrategy in Hb. split_if Hb; [|discriminate].
    now apply classStrategyLoop_no_throw in Hb.
  - unfold tagNameStrategy, found, fallThrough in Hb.
    split_if Hb; discriminate.
  - now apply textXPathStrategy_no_throw in Hb.
  - unfold relativeStrategy, found, fallThrough in Hb.
    destruct (generateRelativeXPath B el doc); discriminate.
Qed.

(** X2. An exception that leaves [generateLocator] is the exception of
    one of its unguarded selector calls: the id selector, the name
    selector or one of the seven attribute selectors of the element.
    The class block, the text block and the relative block never throw,
    whatever the engines do with the class selectors and path queries. *)
Theorem generateLocator_throws_only_from_selectors :
  forall (B : Browser) (el : NodeRef) (doc : Document) (e : Exception),
    (generateLocator B el doc = Throws e ->
     exists selector,
       In selector (unguardedSelectors doc el)
       /\ querySelectorAll B doc selector = Throws e)
    /\ classStrategy B el doc <> Throws e
    /\ textXPathStrategy B el doc <> Throws e
    /\ relativeStrategy B el doc <> Throws e.
Proof.
  intros B el doc e. split; [apply generateLocator_selector_of_throw|].
  split; [|split].
  - unfold classStrategy. destruct (JS.truthy _); [|discriminate].
    apply classStrategyLoop_no_throw.
  - apply textXPathStrategy_no_throw.
  - unfold relativeStrategy, found, fallThrough.
    destruct (generateRelativeXPath B el doc); discriminate.
Qed.

Lemma generateLocator_throws_witness :
  exists selector,
    In selector
       (unguardedSelectors (parseFromString Mini.browser Pages.colonId) [1; 0])
    /\ querySelectorAll Mini.browser
         (parseFromString Mini.browser Pages.colonId) selector
       = Throws SyntaxError.
Proof.
  apply (generateLocator_throws_only_from_selectors Mini.browser [1; 0]
           (parseFromString Mini.browser Pages.colonId) SyntaxError).
  vm_compute. reflexivity.
Defined.

Lemma forEach_throws B E doc nodes : forall acc w e,
  forEach nodes (scrapeElement B E doc) acc w = Throws e ->
  exists el,
    In el nodes /\ isHiddenInput doc el = false
    /\ generateLocator B el doc = Throws e.
Proof.
  induction nodes as [|el rest IH]; intros acc w e H; [discriminate|].
  cbn [forEach] in H. unfold bind in H. rewrite scrapeElement_eq in H.
  destruct (isHiddenInput doc el) eqn:Hid.
  - destruct (IH _ _ _ H) as [el' [Hin Hr]]. exists el'. split; [now right|exact Hr].
  - destruct (generateLocator B el doc) as [loc|x] eqn:G.
    + cbv zeta in H. destruct (existsb _ acc);
        destruct (IH _ _ _ H) as [el' [Hin Hr]];
        exists el'; (split; [now right|exact Hr]).
    + inv H. exists el. split; [now left|]. now split.
Qed.

(** X3. The analysis throws only what [querySelectorAll] throws: either
    the query for the interactive elements, or an unguarded selector of
    an element that is scraped.  It follows that the analysis returns a
    project when no selector is rejected. *)
Theorem analysis_throws_only_from_selectors :
  forall (B : Browser) (E : Entropy) (html url : string) (w : World)
         (e : Exception),
    analyzeDomAndGenerateSchema B E html url w = Throws e ->
    querySelectorAll B (parseFromString B html) (JS.join ", " INTERACTIVE_TAGS)
    = Throws e
    \/ exists nodes el selector,
         querySelectorAll B (parseFromString B html)
                          (JS.join ", " INTERACTIVE_TAGS) = Returns nodes
         /\ In el nodes
         /\ isHiddenInput (parseFromString B html) el = false
         /\ In selector (unguardedSelectors (parseFromString B html) el)
         /\ querySelectorAll B (parseFromString B html) selector = Throws e.
Proof.
  intros B E html url w e H. rewrite analyze_eq in H. cbv zeta in H.
  destruct (querySelectorAll B _ (JS.join ", " INTERACTIVE_TAGS))
    as [nodes|x] eqn:Q; [|left; congruence].
  right. destruct (forEach nodes _ [] w) as [[els w1]|x] eqn:F.
  - destruct (generateTests_spec E (derivePageName B (parseFromString B html) url)
                els w1) as [ts [w2 [G _]]].
    rewrite G in H. discriminate.
  - inv H. destruct (forEach_throws B E _ _ _ _ _ F) as [el [Hin [Hid G]]].
    destruct (generateLocator_selector_of_throw B el _ e G) as [sel [Hs Hq]].
    exists nodes, el, sel. auto.
Qed.

Lemma analysis_throws_witness :
  exists nodes el selector,
    querySelectorAll Mini.browser (parseFromString Mini.browser Pages.colonId)
                     (JS.join ", " INTERACTIVE_TAGS) = Returns nodes
    /\ In el nodes
    /\ In selector
          (unguardedSelectors (parseFromString Mini.browser Pages.colonId) el)
    /\ querySelectorAll Mini.browser
         (parseFromString Mini.browser Pages.colonId) selector
       = Throws SyntaxError.
Proof.
  destruct (analysis_throws_only_from_selectors Mini.browser
              (Mini.constantEntropy 0 "id") Pages.colonId Pages.shopUrl
              startWorld SyntaxError) as [Q|[nodes [el [sel [Q [I [_ [S T]]]]]]]].
  - vm_compute. reflexivity.
  - vm_compute in Q. discriminate.
  - exists nodes, el, sel. auto.
Defined.

(* ================================================================== *)
(** * Further properties: tiers of the resolver *)
(* ================================================================== *)

Section TierFacts.

Variable B : Browser.

Lemma idStrategy_tier el doc loc :
  idStrategy B el doc = Returns (Some loc) -> inTier LocatorType.id 100 loc.
Proof.
  unfold idStrategy. intros H. split_if H; [|discriminate].
  apply ifUniqueSelector_found in H. destruct H as [-> _]. now split.
Qed.

Lemma nameStrategy_tier el doc loc :
  nameStrategy B el doc = Returns (Some loc) -> inTier LocatorType.name 95 loc.
Proof.
  unfold nameStrategy. intros H. split_if H; [|discriminate].
  apply ifUniqueSelector_found in H. destruct H as [-> _]. now split.
Qed.

Lemma linkTextStrategy_tier el doc loc :
  linkTextStrategy B el doc = Returns (Some loc) ->
  inTier LocatorType.linkText 90 loc.
Proof.
  unfold linkTextStrategy, found, fallThrough. intros H.
  split_if H; [|discriminate]. split_if H; [|discriminate]. inv H. now split.
Qed.

Lemma partialLinkTextStrategy_tier el doc loc :
  partialLinkTextStrategy B el doc = Returns (Some loc) ->
  inTier LocatorType.partialLinkText 85 loc.
Proof.
  unfold partialLinkTextStrategy, found, fallThrough. intros H.
  split_if H; [|discriminate]. split_if H; [|discriminate]. inv H. now split.
Qed.

Lemma cssStrategyLoop_tier el doc attrs loc :
  cssStrategyLoop B el doc attrs = Returns (Some loc) ->
  inTier LocatorType.css 80 loc.
Proof.
  induction attrs as [|attr rest IH]; cbn [cssStrategyLoop]; [discriminate|].
  intros H. split_if H; [now apply IH|]. cbv zeta in H.
  split_if H; [|now apply IH].
  match type of H with
  | context [ifUniqueSelector B doc ?sel ?t ?v ?s] =>
      destruct (ifUniqueSelector B doc sel t v s) as [[l|]|e] eqn:U
  end.
  - inv H. apply ifUniqueSelector_found in U. destruct U as [-> _]. now split.
  - now apply IH.
  - discriminate.
Qed.

Lemma classStrategy_tier el doc loc :
  classStrategy B el doc = Returns (Some loc) ->
  inTier LocatorType.className 75 loc.
Proof.
  unfold classStrategy. intros H. split_if H; [|discriminate].
  clear Heqb. revert H. generalize (filter
     (fun c => JS.truthy c
               && negb (JS.listIncludes ["btn"; "form-control"; "input"] c))
     (JS.splitSpaces false "" (DOM.orEmpty (DOM.getAttribute doc el "class")))).
  intros classes. induction classes as [|c rest IH];
    cbn [classStrategyLoop]; [discriminate|].
  destruct (querySelectorAll B doc _) as [ns|e]; [|exact IH].
  destruct (List.length ns =? 1)%nat; [|exact IH].
  intros H. inv H. now split.
Qed.

Lemma tagNameStrategy_tier el doc loc :
  tagNameStrategy el doc = Returns (Some loc) ->
  inTier LocatorType.tagName 70 loc.
Proof.
  unfold tagNameStrategy, found, fallThrough. intros H.
  split_if H; [|discriminate]. inv H. now split.
Qed.

Lemma textXPathStrategy_tier el doc loc :
  textXPathStrategy B el doc = Returns (Some loc) ->
  inTier LocatorType.xpath 60 loc \/ inTier LocatorType.xpath 55 loc.
Proof.
  unfold textXPathStrategy, found, fallThrough. intros H.
  split_if H; [|discriminate]. split_if H.
  - inv H. left. now split.
  - split_if H; [|discriminate].
    destruct (evaluate B doc _) as [ns|e]; [|discriminate].
    destruct (snapshotIndex el ns 0); [|discriminate].
    inv H. right. now split.
Qed.

Lemma relativeStrategy_tier el doc loc :
  relativeStrategy B el doc = Returns (Some loc) ->
  inTier LocatorType.xpath 50 loc.
Proof.
  unfold relativeStrategy, found, fallThrough.
  destruct (generateRelativeXPath B el doc); [|discriminate].
  intros H. inv H. now split.
Qed.

End TierFacts.

(** X4. The kind and the score of a locator that the resolver returns
    are those of one tier: id 100, name 95, linkText 90, partialLinkText
    85, css 80, className 75, tagName 70, xpath 60, 55, 50 or 10.  The
    score therefore tells the tier, and every kind but xpath tells the
    score. *)
Theorem locator_kind_and_score_name_a_tier :
  forall (B : Browser) (el : NodeRef) (doc : Document) (loc : Locator),
    generateLocator B el doc = Returns loc ->
    In (type loc, score loc) tiers
    /\ (score loc = 10 -> value loc = getAbsoluteXPath doc el).
Proof.
  intros B el doc loc H. unfold generateLocator in H.
  apply firstOf_inv in H. destruct H as [[block [Hin Hb]]|H].
  - assert (T : In (type loc, score loc) tiers /\ score loc <> 10).
    { apply in_app_or in Hin. simpl in Hin.
      repeat match type of Hin with
             | _ \/ _ => destruct Hin as [Hin|Hin]
             end; subst; try contradiction.
      - destruct (idStrategy_tier B _ _ _ Hb) as [-> ->]. simpl. split; [auto 12|lia].
      - destruct (nameStrategy_tier B _ _ _ Hb) as [-> ->]. simpl. split; [auto 12|lia].
      - destruct (linkTextStrategy_tier B _ _ _ Hb) as [-> ->]. simpl. split; [auto 12|lia].
      - destruct (partialLinkTextStrategy_tier B _ _ _ Hb) as [-> ->]. simpl.
        split; [auto 12|lia].
      - destruct (cssStrategyLoop_tier B _ _ _ _ Hb) as [-> ->]. simpl. split; [auto 12|lia].
      - destruct (classStrategy_tier B _ _ _ Hb) as [-> ->]. simpl. split; [auto 12|lia].
      - destruct (tagNameStrategy_tier _ _ _ Hb) as [-> ->]. simpl. split; [auto 12|lia].
      - destruct (textXPathStrategy_tier B _ _ _ Hb) as [[-> ->]|[-> ->]]; simpl;
          (split; [auto 12|lia]).
      - destruct (relativeStrategy_tier B _ _ _ Hb) as [-> ->]. simpl. split; [auto 12|lia]. }
    split; [apply T|]. intros S. now destruct T as [_ T].
  - inv H. split; [simpl; auto 12|reflexivity].
Qed.

Lemma locator_tier_witness :
  let doc := parseFromString Mini.browser Pages.twoButtons in
  let loc := {| type := LocatorType.xpath;
                value := "(//button[normalize-space()='Go on'])[2]";
                score := 55 |} in
  generateLocator Mini.browser [1; 1] doc = Returns loc
  /\ In (type loc, score loc) tiers.
Proof.
  intros doc loc.
  assert (G : generateLocator Mini.browser [1; 1] doc = Returns loc)
    by (vm_compute; reflexivity).
  split; [exact G|].
  exact (proj1 (locator_kind_and_score_name_a_tier Mini.browser [1; 1] doc loc G)).
Defined.

(** X5. When the id of an element is of no use and its name attribute is
    not empty and selects, as [[name="..."]], exactly one node, the
    resolver returns the locator of kind [name] with that name and the
    score 95. *)
Theorem unique_name_wins_after_id :
  forall (B : Browser) (el : NodeRef) (doc : Document) (name : string)
         (nodes : list NodeRef),
    idUnusable B el doc ->
    DOM.getAttribute doc el "name" = Some name ->
    name <> EmptyString ->
    querySelectorAll B doc ("[name=" ++ JS.dquote ++ name ++ JS.dquote ++ "]")
    = Returns nodes ->
    List.length nodes = 1 ->
    generateLocator B el doc
    = Returns {| type := LocatorType.name; value := name; score := 95 |}.
Proof.
  intros B el doc name nodes Hid Hname Hne Hq Hlen.
  assert (I : idStrategy B el doc = Returns None).
  { unfold idStrategy, ifUniqueSelector, fallThrough. unfold idUnusable in Hid.
    cbv zeta in Hid. destruct Hid as [H|[H|[H|[ns [H L]]]]].
    - now rewrite H.
    - rewrite H. now rewrite andb_false_r.
    - rewrite H. now rewrite andb_false_r.
    - destruct (JS.truthy _ && _ && _); [|reflexivity].
      rewrite H. apply Nat.eqb_neq in L. now rewrite L. }
  unfold generateLocator. rewrite firstOf_app.
  unfold directStrategies. cbn [firstOf]. rewrite I.
  unfold nameStrategy, ifUniqueSelector. rewrite Hname. cbn [DOM.orEmpty].
  rewrite Hq, Hlen. destruct name; [contradiction|]. reflexivity.
Qed.

Lemma unique_name_witness :
  generateLocator Mini.browser [1; 0]
    (parseFromString Mini.browser MorePages.generatedId)
  = Returns {| type := LocatorType.name; value := "password"; score := 95 |}.
Proof.
  apply (unique_name_wins_after_id Mini.browser [1; 0]
           (parseFromString Mini.browser MorePages.generatedId)
           "password" [[1; 0]]).
  - right. left. vm_compute. reflexivity.
  - vm_compute. reflexivity.
  - discriminate.
  - vm_compute. reflexivity.
  - reflexivity.
Defined.






(* ================================================================== *)
(** * Further properties: the search flow and the generic flow *)
(* ================================================================== *)

Lemma searchLike_mentions (els : list ElementDefinition) :
  (forall e, In e els -> lowerFixed (el_name e)) ->
  forall e, In e els -> mentions ["search"; "query"] e = searchLike (el_name e).
Proof.
  intros lower e He. rewrite (mentions_lower _ _ (lower e He)). unfold searchLike.
  cbn [existsb]. now rewrite orb_false_r.
Qed.

(** X7. The search test is in the result exactly when some element name
    mentions "search" or "query"; it is a regression test of three
    steps: input of "Test Item" into the first such name, a click with
    the value "Enter", and the assertion that "results" is visible. *)
Theorem search_flow :
  forall (B : Browser) (E : Entropy) (html url : string) (w w' : World)
         (p : Project),
    analyzeDomAndGenerateSchema B E html url w = Returns (p, w') ->
    exists pg,
      pages p = [pg]
      /\ (hasTest (searchTestName (pg_name pg)) p
          <-> searchDetected (pg_elements pg) = true)
      /\ forall t,
           In t (tests p) -> tc_name t = searchTestName (pg_name pg) ->
           tc_type t = regression
           /\ map stepShape (tc_steps t)
              = [(input, Some "Test Item",
                  "Type search query in "
                    ++ firstMention ["search"; "query"] (pg_elements pg));
                 (click, Some "Enter", "Submit search");
                 (assert_visible, Some "results", "Verify results appear")].
Proof.
  intros B E html url w w' p H.
  destruct (analysis_shape B E html url w p w' H)
    as [pg [els [P [Hels [_ [T L]]]]]].
  exists pg. split; [exact P|]. rewrite Hels.
  destruct (test_names_differ (pg_name pg)) as [LS [LG SG]].
  assert (D : searchDetected els = searchCondition (map el_name els)).
  { unfold searchDetected, searchCondition.
    apply existsb_in_names. apply searchLike_mentions. exact L. }
  rewrite D. split.
  - rewrite hasTest_erased. split.
    + intros [t [Hin Hn]]. apply T, expectedTests_inv in Hin.
      destruct Hin as [[_ ->]|[[C _]|[_ [_ [_ ->]]]]]; [|exact C|].
      * cbn in Hn. now apply LS in Hn.
      * cbn in Hn. symmetry in Hn. now apply SG in Hn.
    + intros C. eexists. split;
        [apply T, expectedTests_inv; right; left; split; [exact C|reflexivity]|].
      reflexivity.
  - intros t Hin Hn.
    assert (Hin' : In (eraseTestIds t) (map eraseTestIds (tests p)))
      by now apply in_map.
    apply T, expectedTests_inv in Hin'.
    destruct Hin' as [[_ Ht]|[[_ Ht]|[_ [_ [_ Ht]]]]].
    + apply (f_equal tc_name) in Ht. cbn in Ht. rewrite Hn in Ht.
      symmetry in Ht. now apply LS in Ht.
    + split; [exact (f_equal tc_type Ht)|].
      rewrite <- stepShape_erased.
      change (map eraseStepId (tc_steps t)) with (tc_steps (eraseTestIds t)).
      rewrite Ht. cbn [searchCase bareTest tc_steps map stepShape bareStep
                         st_action st_value st_description].
      rewrite (firstMention_names _ searchLike els (searchLike_mentions els L)).
      reflexivity.
    + apply (f_equal tc_name) in Ht. cbn in Ht. rewrite Hn in Ht.
      now apply SG in Ht.
Qed.

Lemma search_flow_witness :
  exists p w' pg,
    analyzeDomAndGenerateSchema Mini.browser (Mini.constantEntropy 0 "id")
      MorePages.search Pages.shopUrl startWorld = Returns (p, w')
    /\ pages p = [pg]
    /\ map el_name (pg_elements pg) = ["query_input"; "go_button"]
    /\ hasTest (searchTestName (pg_name pg)) p.
Proof.
  destruct (analyzeDomAndGenerateSchema Mini.browser (Mini.constantEntropy 0 "id")
              MorePages.search Pages.shopUrl startWorld) as [[p w']|e] eqn:R;
    [|vm_compute in R; discriminate].
  destruct (search_flow Mini.browser (Mini.constantEntropy 0 "id")
              MorePages.search Pages.shopUrl startWorld w' p R)
    as [pg [P [Iff _]]].
  exists p, w', pg. split; [reflexivity|]. split; [exact P|].
  vm_compute in R. inv R. cbn in P. inv P.
  split; [reflexivity|]. apply Iff. vm_compute. reflexivity.
Defined.

Lemma expectedTests_length derivedName names :
  (names = [] -> expectedTests derivedName names = [])
  /\ (names <> [] ->
      1 <= List.length (expectedTests derivedName names) <= 2).
Proof.
  unfold expectedTests. cbv zeta.
  destruct names as [|n names].
  - split; [reflexivity|intros H; now contradiction H].
  - split; [discriminate|]. intros _.
    destruct (loginCondition (n :: names)), (searchCondition (n :: names));
      cbn; lia.
Qed.

Lemma interaction_shape (els : list ElementDefinition) :
  map stepShape (map genericStep (map el_name els)) = map interaction els.
Proof. rewrite !map_map. apply map_ext. reflexivity. Qed.

(** X8. A page without element has no test; a page with an element has
    one or two tests.  The generic test, when it is there, is the only
    test; it is a smoke test with one step for each of the first four
    elements, in their order: an input of "test_data" when the name of
    the element contains "input", a click otherwise. *)
Theorem generic_flow_and_test_count :
  forall (B : Browser) (E : Entropy) (html url : string) (w w' : World)
         (p : Project),
    analyzeDomAndGenerateSchema B E html url w = Returns (p, w') ->
    exists pg,
      pages p = [pg]
      /\ (pg_elements pg = [] -> tests p = [])
      /\ (pg_elements pg <> [] -> 1 <= List.length (tests p) <= 2)
      /\ forall t,
           In t (tests p) -> tc_name t = genericTestName (pg_name pg) ->
           tests p = [t]
           /\ tc_type t = smoke
           /\ map stepShape (tc_steps t)
              = map interaction (firstn 4 (pg_elements pg))
           /\ List.length (tc_steps t)
              = Nat.min 4 (List.length (pg_elements pg)).
Proof.
  intros B E html url w w' p H.
  destruct (analysis_shape B E html url w p w' H)
    as [pg [els [P [Hels [_ [T _]]]]]].
  destruct (analyze_returns B E html url w p w' H)
    as [nodes [els' [w1 [pageId [_ [_ [P' T']]]]]]].
  rewrite P in P'. inv P'. cbn [pg_elements pg_name] in *.
  destruct (test_names_differ (derivePageName B (parseFromString B html) url))
    as [LS [LG SG]].
  destruct (expectedTests_length (derivePageName B (parseFromString B html) url)
              (map el_name els')) as [L0 L1].
  eexists. split; [exact P|]. cbn [pg_elements pg_name].
  assert (Len : List.length (tests p)
                = List.length (expectedTests
                                 (derivePageName B (parseFromString B html) url)
                                 (map el_name els')))
    by now rewrite <- T', length_map.
  split; [|split].
  - intros ->. specialize (L0 eq_refl). rewrite L0 in Len.
    now destruct (tests p).
  - intros Hne. rewrite Len. apply L1. now destruct els'.
  - intros t Hin Hn.
    assert (Hin' : In (eraseTestIds t) (map eraseTestIds (tests p)))
      by now apply in_map.
    rewrite T' in Hin'. apply expectedTests_inv in Hin'.
    destruct Hin' as [[_ Ht]|[[_ Ht]|[C1 [C2 [Hne Ht]]]]].
    + apply (f_equal tc_name) in Ht. cbn in Ht. rewrite Hn in Ht.
      symmetry in Ht. now apply LG in Ht.
    + apply (f_equal tc_name) in Ht. cbn in Ht. rewrite Hn in Ht.
      symmetry in Ht. now apply SG in Ht.
    + assert (One : expectedTests (derivePageName B (parseFromString B html) url)
                      (map el_name els')
                    = [genericCase
                         (snakeCase (derivePageName B (parseFromString B html) url))
                         (map el_name els')]).
      { unfold expectedTests. cbv zeta. rewrite C1, C2.
        destruct (map el_name els'); [contradiction|reflexivity]. }
      assert (Shape : map stepShape (tc_steps t) = map interaction (firstn 4 els')).
      { rewrite <- stepShape_erased.
        change (map eraseStepId (tc_steps t)) with (tc_steps (eraseTestIds t)).
        rewrite Ht. cbn [genericCase bareTest tc_steps].
        rewrite firstn_map. apply interaction_shape. }
      split; [|split; [exact (f_equal tc_type Ht)|split; [exact Shape|]]].
      * rewrite One in Len, T'. destruct (tests p) as [|t0 [|t1 ts]];
          try discriminate. destruct Hin as [->|[]]. reflexivity.
      * rewrite <- (length_map stepShape), Shape, length_map, length_firstn.
        reflexivity.
Qed.

Lemma generic_flow_witness :
  exists p w' t,
    analyzeDomAndGenerateSchema Mini.browser (Mini.constantEntropy 0 "id")
      MorePages.fiveLinks Pages.shopUrl startWorld = Returns (p, w')
    /\ tests p = [t]
    /\ map st_description (tc_steps t)
       = ["Interact with alpha_a"; "Interact with beta_a";
          "Interact with gamma_a"; "Interact with delta_a"]
    /\ List.length (tc_steps t) = 4.
Proof.
  destruct (analyzeDomAndGenerateSchema Mini.browser (Mini.constantEntropy 0 "id")
              MorePages.fiveLinks Pages.shopUrl startWorld) as [[p w']|e] eqn:R;
    [|vm_compute in R; discriminate].
  destruct (generic_flow_and_test_count Mini.browser (Mini.constantEntropy 0 "id")
              MorePages.fiveLinks Pages.shopUrl startWorld w' p R)
    as [pg [P [_ [_ G]]]].
  vm_compute in R. inv R. cbn in P. inv P.
  eexists. eexists. eexists. split; [reflexivity|].
  cbn [tests]. split; [reflexivity|]. split; [reflexivity|].
  match goal with
  | |- List.length (tc_steps ?t) = 4 =>
      destruct (G t (or_introl eq_refl) eq_refl) as [_ [_ [_ L]]]; exact L
  end.
Defined.

(* ================================================================== *)
(** * Further properties: clean texts and safe names *)
(* ================================================================== *)

Lemma dropWhile_snoc p c : forall x,
  JS.dropWhile p (x ++ String c "")
  = match JS.dropWhile p x with
    | EmptyString => if p c then EmptyString else String c EmptyString
    | r => r ++ String c ""
    end.
Proof.
  induction x as [|d x IH]; cbn [append JS.dropWhile]; [reflexivity|].
  destruct (p d); [exact IH|reflexivity].
Qed.

Lemma rev_nil_inv s : JS.rev s = EmptyString -> s = EmptyString.
Proof.
  intros H. rewrite <- (rev_involutive s), H. reflexivity.
Qed.

Lemma dropWhileEnd_dropEnd p : forall s, JS.dropWhileEnd p s = dropEnd p s.
Proof.
  unfold JS.dropWhileEnd.
  induction s as [|c s IH]; [reflexivity|].
  cbn [JS.rev dropEnd]. rewrite dropWhile_snoc, <- IH.
  destruct (JS.dropWhile p (JS.rev s)) as [|d r] eqn:D.
  - cbn [JS.rev]. now destruct (p c).
  - rewrite rev_app. cbn [JS.rev append].
    destruct (JS.rev r ++ String d "") eqn:R; [|reflexivity].
    destruct (JS.rev r); discriminate.
Qed.







Lemma forallChar_app p : forall a b,
  JS.forallChar p (a ++ b) = JS.forallChar p a && JS.forallChar p b.
Proof.
  induction a as [|c a IH]; intros b; cbn [append JS.forallChar]; [reflexivity|].
  now rewrite IH, andb_assoc.
Qed.

Lemma forallChar_mapChars p f : forall s,
  (forall c, p (f c) = true) -> JS.forallChar p (JS.mapChars f s) = true.
Proof.
  intros s H. induction s as [|c s IH]; cbn [JS.mapChars JS.forallChar];
    [reflexivity|]. now rewrite H, IH.
Qed.

Lemma forallChar_dropWhile p q : forall s,
  JS.forallChar p s = true -> JS.forallChar p (JS.dropWhile q s) = true.
Proof.
  induction s as [|c s IH]; intros H; [reflexivity|].
  cbn [JS.dropWhile]. destruct (q c); [|exact H].
  cbn [JS.forallChar] in H. apply andb_true_iff in H. now apply IH.
Qed.

Lemma forallChar_dropEnd p q : forall s,
  JS.forallChar p s = true -> JS.forallChar p (dropEnd q s) = true.
Proof.
  induction s as [|c s IH]; intros H; [reflexivity|].
  cbn [JS.forallChar] in H. apply andb_true_iff in H. destruct H as [Hc Hs].
  cbn [dropEnd]. specialize (IH Hs).
  destruct (dropEnd q s) as [|d r].
  - destruct (q c); [reflexivity|]. cbn [JS.forallChar]. now rewrite Hc.
  - cbn [JS.forallChar] in *. now rewrite Hc.
Qed.

Lemma dropWhile_head p : forall s c r,
  JS.dropWhile p s = String c r -> p c = false.
Proof.
  induction s as [|d s IH]; intros c r H; [discriminate|].
  cbn [JS.dropWhile] in H. destruct (p d) eqn:P; [now apply (IH c r)|].
  now inv H.
Qed.

Lemma dropEnd_head p s c r :
  dropEnd p s = String c r -> exists r', s = String c r'.
Proof.
  destruct s as [|d s]; [discriminate|]. cbn [dropEnd].
  destruct (dropEnd p s) as [|e t].
  - destruct (p d); [discriminate|]. intros H. inv H. now exists s.
  - intros H. inv H. now exists s.
Qed.

Lemma sanitized_safe c :
  isNameSafe (if JS.isLowerAlnum c then c else "_"%char) = true.
Proof.
  unfold isNameSafe. destruct (JS.isLowerAlnum c) eqn:A; [now rewrite A|].
  reflexivity.
Qed.

Lemma varNameOf_safe base : JS.forallChar isNameSafe (varNameOf base) = true.
Proof.
  unfold varNameOf. rewrite dropWhileEnd_dropEnd.
  apply forallChar_dropEnd, forallChar_dropWhile, forallChar_mapChars.
  exact sanitized_safe.
Qed.

Lemma varNameOf_head base c r :
  varNameOf base = String c r -> isUnderscore c = false.
Proof.
  unfold varNameOf. rewrite dropWhileEnd_dropEnd. intros H.
  destruct (dropEnd_head _ _ _ _ H) as [r' H'].
  exact (dropWhile_head _ _ _ _ H').
Qed.

Lemma digits_safe : forall s,
  JS.forallChar JS.isDigit s = true -> JS.forallChar isNameSafe s = true.
Proof.
  induction s as [|c s IH]; intros H; [reflexivity|].
  cbn [JS.forallChar] in *. apply andb_true_iff in H. destruct H as [Hc Hs].
  rewrite (IH Hs), andb_true_r. unfold isNameSafe, JS.isLowerAlnum.
  rewrite Hc. now rewrite orb_true_r.
Qed.

Lemma interactive_tag_safe t :
  In t INTERACTIVE_TAGS -> JS.forallChar isNameSafe t = true.
Proof.
  unfold INTERACTIVE_TAGS. simpl.
  intros [<-|[<-|[<-|[<-|[<-|[]]]]]]; reflexivity.
Qed.

Lemma generatedName_safe E base tag k :
  JS.forallChar isNameSafe tag = true ->
  JS.forallChar isNameSafe (generatedName E base tag k) = true
  /\ exists c rest,
       generatedName E base tag k = String c rest /\ isUnderscore c = false.
Proof.
  intros Ht. unfold generatedName.
  destruct (varNameOf base) as [|c r] eqn:V; cbn [JS.truthy].
  - split.
    + unfold JS.ofNat.
      rewrite !forallChar_app, Ht, (digits_safe _ (MiniFacts.digits_ofUint _)).
      reflexivity.
    + eexists. eexists. split; reflexivity.
  - split.
    + rewrite !forallChar_app, Ht, <- V, varNameOf_safe. reflexivity.
    + exists c. eexists. split; [reflexivity|].
      exact (varNameOf_head _ _ _ V).
Qed.

(** X9. The name of every element definition is made of lower-case
    letters, digits and underscores only, and its first character is not
    an underscore. *)
Theorem element_names_are_lower_snake :
  forall (B : Browser) (E : Entropy) (html url : string) (w w' : World)
         (p : Project),
    TagsLaw B ->
    analyzeDomAndGenerateSchema B E html url w = Returns (p, w') ->
    forall pg e, In pg (pages p) -> In e (pg_elements pg) ->
      JS.forallChar isNameSafe (el_name e) = true
      /\ exists c rest, el_name e = String c rest /\ isUnderscore c = false.
Proof.
  intros B E html url w w' p law H pg e Hpg He.
  destruct (analyze_returns B E html url w p w' H)
    as [nodes [els [w1 [pageId [Q [F [P _]]]]]]].
  rewrite P in Hpg. destruct Hpg as [<-|[]]. cbn [pg_elements] in He.
  rewrite law in Q. inv Q.
  destruct (forEach_origin B E _ _ _ _ _ _ F e He)
    as [[]|[el [Hin [_ [_ [k Hn]]]]]].
  apply filter_In in Hin. destruct Hin as [_ Hint].
  assert (Htag : In (DOM.localName (parseFromString B html) el) INTERACTIVE_TAGS).
  { unfold isInteractive, JS.listIncludes in Hint.
    apply existsb_exists in Hint. destruct Hint as [t [Ht Heq]].
    apply String.eqb_eq in Heq. now subst. }
  rewrite Hn. apply generatedName_safe. unfold DOM.tagName.
  rewrite (interactive_tag_roundtrip _ Htag).
  now apply interactive_tag_safe.
Qed.

Lemma element_names_witness :
  exists p w',
    analyzeDomAndGenerateSchema Mini.browser (Mini.constantEntropy 0 "id")
      Pages.login Pages.shopUrl startWorld = Returns (p, w')
    /\ forall pg e, In pg (pages p) -> In e (pg_elements pg) ->
         JS.forallChar isNameSafe (el_name e) = true.
Proof.
  eexists. eexists. split; [vm_compute; reflexivity|].
  intros pg e Hpg He.
  exact (proj1 (element_names_are_lower_snake Mini.browser
                  (Mini.constantEntropy 0 "id") Pages.login Pages.shopUrl
                  startWorld _ _ MiniFacts.tagsLaw eq_refl pg e Hpg He)).
Defined.

(* ================================================================== *)
(** * Further properties: what the scraping loop keeps *)
(* ================================================================== *)

Lemma candidates_member B E doc : forall nodes w cands w',
  candidates B E doc nodes w = Returns (cands, w') ->
  List.length cands
  = List.length (filter (fun el => negb (isHiddenInput doc el)) nodes)
  /\ forall el, In el nodes -> isHiddenInput doc el = false ->
       exists c k,
         In c cands
         /\ el_name c = generatedName E (cleanText (nameBaseOf doc el))
                          (JS.toLowerCase (DOM.tagName doc el)) k.
Proof.
  induction nodes as [|n rest IH]; intros w cands w' H.
  - cbn in H. inv H. split; [reflexivity|intros el []].
  - rewrite candidates_cons in H. cbn [filter].
    destruct (isHiddenInput doc n) eqn:Hid; cbn [negb].
    + destruct (IH _ _ _ H) as [L M]. split; [exact L|].
      intros el [<-|Hin] Hv; [congruence|now apply M].
    + destruct (generateLocator B n doc) as [loc|ex]; [|discriminate].
      cbv zeta in H.
      destruct (candidates B E doc rest _) as [[cs w2]|ex] eqn:C;
        [|discriminate].
      inv H. destruct (IH _ _ _ C) as [L M]. split.
      * cbn [List.length]. now rewrite L.
      * intros el [<-|Hin] Hv.
        -- eexists. eexists. split; [now left|reflexivity].
        -- destruct (M el Hin Hv) as [c [k [Hc Hn]]].
           exists c, k. split; [now right|exact Hn].
Qed.

Lemma firstOccurrences_covers : forall cands seen c,
  In c cands ->
  In (el_name c) seen
  \/ In (el_name c) (map el_name (firstOccurrences seen cands)).
Proof.
  induction cands as [|c0 rest IH]; intros seen c Hin; [contradiction|].
  cbn [firstOccurrences].
  destruct (JS.listIncludes seen (el_name c0)) eqn:Seen.
  - destruct Hin as [<-|Hin]; [|now apply IH].
    left. unfold JS.listIncludes in Seen. apply existsb_exists in Seen.
    destruct Seen as [x [Hx Heq]]. apply String.eqb_eq in Heq. now subst.
  - cbn [map]. destruct Hin as [<-|Hin]; [right; now left|].
    destruct (IH (seen ++ [el_name c0])%list c Hin) as [Hs|Hf].
    + apply in_app_or in Hs. destruct Hs as [Hs|[Hs|[]]]; [now left|].
      right. now left.
    + right. now right.
Qed.

Lemma firstOccurrences_length : forall cands seen,
  List.length (firstOccurrences seen cands) <= List.length cands.
Proof.
  induction cands as [|c rest IH]; intros seen; cbn [firstOccurrences];
    [apply le_n|].
  destruct (JS.listIncludes seen (el_name c)); cbn [List.length].
  - apply le_S, IH.
  - apply le_n_S, IH.
Qed.

(** X10. Every scraped element that is not a hidden input is represented
    in the page: the page has an element definition with the name that
    this node was given, although it may be the definition of an earlier
    node of the same name; and the page has at most as many definitions
    as there are such nodes. *)
Theorem every_visible_node_is_named :
  forall (B : Browser) (E : Entropy) (html url : string) (w w' : World)
         (p : Project),
    TagsLaw B ->
    analyzeDomAndGenerateSchema B E html url w = Returns (p, w') ->
    exists pg,
      pages p = [pg]
      /\ List.length (pg_elements pg)
         <= List.length
              (filter (fun el => negb (isHiddenInput (parseFromString B html) el))
                      (interactiveElements (parseFromString B html)))
      /\ forall el,
           In el (interactiveElements (parseFromString B html)) ->
           isHiddenInput (parseFromString B html) el = false ->
           exists e k,
             In e (pg_elements pg)
             /\ el_name e
                = generatedName E
                    (cleanText (nameBaseOf (parseFromString B html) el))
                    (DOM.localName (parseFromString B html) el) k.
Proof.
  intros B E html url w w' p law H.
  destruct (analyze_returns B E html url w p w' H)
    as [nodes [els [w1 [pageId [Q [F [P _]]]]]]].
  rewrite law in Q. inv Q.
  pose proof (forEach_firstOccurrences B E (parseFromString B html)
                (interactiveElements (parseFromString B html))
                [] w w eq_refl) as L.
  rewrite F in L.
  destruct (candidates B E (parseFromString B html)
              (interactiveElements (parseFromString B html)) w)
    as [[cands w'']|ex] eqn:C; [|contradiction].
  change (map eraseElementId els = firstOccurrences [] cands) in L.
  destruct (candidates_member B E _ _ _ _ _ C) as [Len M].
  eexists. split; [exact P|]. cbn [pg_elements]. split.
  - rewrite <- Len, <- (length_map eraseElementId els), L.
    apply firstOccurrences_length.
  - intros el Hin Hv. destruct (M el Hin Hv) as [c [k [Hc Hn]]].
    destruct (firstOccurrences_covers cands [] c Hc) as [[]|Hf].
    rewrite <- L, names_erased in Hf. apply in_map_iff in Hf.
    destruct Hf as [e [He1 He2]]. exists e, k. split; [exact He2|].
    rewrite He1, Hn. f_equal. unfold DOM.tagName.
    apply interactive_tag_roundtrip.
    apply filter_In in Hin. destruct Hin as [_ Hint].
    unfold isInteractive, JS.listIncludes in Hint.
    apply existsb_exists in Hint. destruct Hint as [t [Ht Heq]].
    apply String.eqb_eq in Heq. now subst.
Qed.

Lemma every_visible_node_witness :
  exists p w' pg,
    analyzeDomAndGenerateSchema Mini.browser (Mini.constantEntropy 0 "id")
      Pages.twoButtons Pages.shopUrl startWorld = Returns (p, w')
    /\ pages p = [pg]
    /\ List.length (pg_elements pg)
       <= List.length
            (interactiveElements (parseFromString Mini.browser Pages.twoButtons)).
Proof.
  destruct (every_visible_node_is_named Mini.browser
              (Mini.constantEntropy 0 "id") Pages.twoButtons Pages.shopUrl
              startWorld _ _ MiniFacts.tagsLaw eq_refl)
    as [pg [P [L _]]].
  eexists. eexists. exists pg. split; [vm_compute; reflexivity|].
  split; [exact P|exact L].
Defined.

(* ================================================================== *)
(** * Further properties: the locators of the element definitions *)
(* ================================================================== *)

(** The locator of the resolver selects one node, or it is the absolute
    path of the last resort. *)
Lemma generateLocator_unique_or_absolute B el doc loc :
  IndexLaw B ->
  generateLocator B el doc = Returns loc ->
  selectsOne B doc loc
  \/ (type loc = LocatorType.xpath /\ value loc = getAbsoluteXPath doc el).
Proof.
  intros law H. unfold generateLocator in H.
  apply firstOf_inv in H. destruct H as [[block [Hin Hb]]|H].
  - left. apply in_app_or in Hin. simpl in Hin.
    repeat match type of Hin with
           | _ \/ _ => destruct Hin as [Hin|Hin]
           end; subst; try contradiction.
    + exact (proj2 (idStrategy_sound B _ _ _ Hb)).
    + exact (proj2 (nameStrategy_sound B _ _ _ Hb)).
    + exact (proj2 (linkTextStrategy_sound B _ _ _ Hb)).
    + exact (proj2 (partialLinkTextStrategy_sound B _ _ _ Hb)).
    + exact (proj2 (cssStrategyLoop_sound B _ _ _ _ Hb)).
    + exact (proj2 (classStrategy_sound B _ _ _ Hb)).
    + exact (proj2 (tagNameStrategy_sound B _ _ _ Hb)).
    + exact (proj2 (textXPathStrategy_sound B law _ _ _ Hb)).
    + exact (proj2 (relativeStrategy_sound B _ _ _ Hb)).
  - right. inv H. split; reflexivity.
Qed.

Lemma forEach_locator B E doc nodes : forall acc w els w',
  forEach nodes (scrapeElement B E doc) acc w = Returns (els, w') ->
  forall e, In e els ->
    In e acc
    \/ exists el loc,
         In el nodes /\ comesFrom E doc el e
         /\ generateLocator B el doc = Returns loc
         /\ el_locatorType e = type loc /\ el_locatorValue e = value loc.
Proof.
  induction nodes as [|el rest IH]; intros acc w els w' H e He.
  - cbn in H. inv H. now left.
  - cbn [forEach] in H. unfold bind in H. rewrite scrapeElement_eq in H.
    destruct (isHiddenInput doc el) eqn:Hid.
    + destruct (IH _ _ _ _ H e He) as [Ha|[el' [loc [Hin Hc]]]]; [now left|].
      right. exists el', loc. split; [now right|exact Hc].
    + destruct (generateLocator B el doc) as [loc|ex] eqn:G; [|discriminate].
      cbv zeta in H. destruct (existsb _ acc).
      * destruct (IH _ _ _ _ H e He) as [Ha|[el' [loc' [Hin Hc]]]]; [now left|].
        right. exists el', loc'. split; [now right|exact Hc].
      * destruct (IH _ _ _ _ H e He) as [Ha|[el' [loc' [Hin Hc]]]].
        -- apply in_app_or in Ha. destruct Ha as [Ha|[<-|[]]]; [now left|].
           right. exists el, loc. split; [now left|]. split.
           ++ split; [exact Hid|]. split; [reflexivity|]. eexists. reflexivity.
           ++ split; [exact G|]. split; reflexivity.
        -- right. exists el', loc'. split; [now right|exact Hc].
Qed.

(** X11. The locator of every element definition is the one the resolver
    returned for the scraped node that gave the definition its name and
    its description; so it selects exactly one node of the document,
    unless it is the absolute path of the last resort. *)
Theorem element_locators_come_from_the_resolver :
  forall (B : Browser) (E : Entropy) (html url : string) (w w' : World)
         (p : Project),
    IndexLaw B ->
    analyzeDomAndGenerateSchema B E html url w = Returns (p, w') ->
    forall pg e, In pg (pages p) -> In e (pg_elements pg) ->
      exists nodes el loc,
        querySelectorAll B (parseFromString B html)
                         (JS.join ", " INTERACTIVE_TAGS) = Returns nodes
        /\ In el nodes
        /\ comesFrom E (parseFromString B html) el e
        /\ generateLocator B el (parseFromString B html) = Returns loc
        /\ el_locatorType e = type loc
        /\ el_locatorValue e = value loc
        /\ (selectsOne B (parseFromString B html) loc
            \/ (el_locatorType e = LocatorType.xpath
                /\ el_locatorValue e
                   = getAbsoluteXPath (parseFromString B html) el)).
Proof.
  intros B E html url w w' p law H pg e Hpg He.
  destruct (analyze_returns B E html url w p w' H)
    as [nodes [els [w1 [pageId [Q [F [P _]]]]]]].
  rewrite P in Hpg. destruct Hpg as [<-|[]]. cbn [pg_elements] in He.
  destruct (forEach_locator B E _ _ _ _ _ _ F e He)
    as [[]|[el [loc [Hin [Hc [G [Ht Hv]]]]]]].
  exists nodes, el, loc. repeat (split; [assumption|]).
  rewrite Ht, Hv. exact (generateLocator_unique_or_absolute B _ _ _ law G).
Qed.

Lemma element_locators_witness :
  exists p w',
    analyzeDomAndGenerateSchema Mini.browser (Mini.constantEntropy 0 "id")
      Pages.login Pages.shopUrl startWorld = Returns (p, w')
    /\ forall pg e, In pg (pages p) -> In e (pg_elements pg) ->
         exists el loc,
           generateLocator Mini.browser el
             (parseFromString Mini.browser Pages.login) = Returns loc
           /\ el_locatorType e = type loc /\ el_locatorValue e = value loc.
Proof.
  eexists. eexists. split; [vm_compute; reflexivity|].
  intros pg e Hpg He.
  destruct (element_locators_come_from_the_resolver Mini.browser
              (Mini.constantEntropy 0 "id") Pages.login Pages.shopUrl
              startWorld _ _ MiniFacts.indexLaw eq_refl pg e Hpg He)
    as [nodes [el [loc [_ [_ [_ [G [Ht [Hv _]]]]]]]]].
  exists el, loc. repeat split; assumption.
Defined.

(* ================================================================== *)
(** * Further properties: the absolute path *)
(* ================================================================== *)

Lemma nodeAt_snoc : forall p n i,
  DOM.nodeAt n (p ++ [i])%list
  = match DOM.nodeAt n p with
    | Some m => nth_error (DOM.nodeChildren m) i
    | None => None
    end.
Proof.
  induction p as [|j p IH]; intros n i.
  - cbn. destruct n as [t a cs|d]; cbn; [|now destruct i].
    now destruct (nth_error cs i).
  - cbn [List.app DOM.nodeAt]. destruct n as [t a cs|d]; [|reflexivity].
    destruct (nth_error cs j) as [c|]; [apply IH|reflexivity].
Qed.

Lemma slash_app c r s : exists rest, (String c r ++ s) = String c rest.
Proof. eexists. reflexivity. Qed.

Lemma getAbsoluteXPathUp_slash doc : forall up,
  getAbsoluteXPathUp doc up = EmptyString
  \/ exists rest, getAbsoluteXPathUp doc up = String "/" rest.
Proof.
  induction up as [|i up IH]; cbn [getAbsoluteXPathUp]; cbv zeta.
  - right. destruct (negb _); eexists; reflexivity.
  - destruct (negb _); [right; eexists; reflexivity|].
    destruct (_ =? 1)%nat.
    + right. destruct IH as [->|[rest ->]]; eexists; reflexivity.
    + destruct (_ <? _)%nat; [|now left].
      right. destruct IH as [->|[rest ->]]; eexists; reflexivity.
Qed.

(** X13. The absolute path of an element of the document is never empty:
    it starts with a slash, so that the empty result at the end of
    [getAbsoluteXPath] is not reached for such an element. *)
Theorem absolute_path_starts_with_slash :
  forall (doc : Document) (el : NodeRef) (n : Node),
    DOM.lookup doc el = Some n ->
    DOM.isElement n = true ->
    exists rest, getAbsoluteXPath doc el = String "/" rest.
Proof.
  intros doc el n H _. unfold getAbsoluteXPath.
  rewrite <- (List.rev_involutive el) in H.
  destruct (List.rev el) as [|i up]; cbn [getAbsoluteXPathUp]; cbv zeta.
  - destruct (negb _); eexists; reflexivity.
  - destruct (negb _); [eexists; reflexivity|].
    destruct (_ =? 1)%nat.
    + destruct (getAbsoluteXPathUp_slash doc up) as [->|[rest ->]];
        eexists; reflexivity.
    + cbn [List.rev] in H. unfold DOM.lookup in H. rewrite nodeAt_snoc in H.
      unfold DOM.childNodes, DOM.lookup.
      destruct (DOM.nodeAt (documentElement doc) (List.rev up)) as [m|];
        [|discriminate].
      assert (L : (i <? List.length (DOM.nodeChildren m))%nat = true).
      { apply Nat.ltb_lt, nth_error_Some. congruence. }
      rewrite L.
      destruct (getAbsoluteXPathUp_slash doc up) as [->|[rest ->]];
        eexists; reflexivity.
Qed.


Lemma absolute_path_witness :
  exists rest,
    getAbsoluteXPath (parseFromString Mini.browser Pages.labelledInput)
                     [1; 1; 0]
    = String "/" rest.
Proof.
  apply (absolute_path_starts_with_slash _ _ (Element "input" [] []));
    vm_compute; reflexivity.
Defined.


(* ================================================================== *)
(** * Further properties: the order of the tiers *)
(* ================================================================== *)

Lemma ifUniqueSelector_none B doc selector t v s :
  ifUniqueSelector B doc selector t v s = Returns None ->
  exists nodes,
    querySelectorAll B doc selector = Returns nodes /\ List.length nodes <> 1.
Proof.
  unfold ifUniqueSelector, found, fallThrough.
  destruct (querySelectorAll B doc selector) as [nodes|e]; [|discriminate].
  destruct (List.length nodes =? 1)%nat eqn:L; [discriminate|].
  intros _. exists nodes. split; [reflexivity|]. now apply Nat.eqb_neq.
Qed.

Lemma idStrategy_none B el doc :
  idStrategy B el doc = Returns None -> idUnusable B el doc.
Proof.
  unfold idStrategy, idUnusable. cbv zeta.
  destruct (JS.truthy _) eqn:T; [|now left].
  destruct (JS.existsChar JS.isDigit _) eqn:D; [right; now left|].
  destruct (JS.includes _ "ext" || JS.includes _ "gen") eqn:G;
    [right; right; now left|].
  cbn [andb negb]. intros H. right. right. right.
  exact (ifUniqueSelector_none _ _ _ _ _ _ H).
Qed.

Lemma nameStrategy_none B el doc :
  nameStrategy B el doc = Returns None -> nameUnusable B el doc.
Proof.
  unfold nameStrategy, nameUnusable. cbv zeta.
  destruct (JS.truthy _) eqn:T; [|now left].
  intros H. right. exact (ifUniqueSelector_none _ _ _ _ _ _ H).
Qed.

Lemma tagNameStrategy_none el doc :
  tagNameStrategy el doc = Returns None ->
  List.length (DOM.getElementsByTagName doc (JS.toLowerCase (DOM.tagName doc el)))
  <> 1.
Proof.
  unfold tagNameStrategy, found, fallThrough. cbv zeta.
  destruct (_ =? 1)%nat eqn:L; [discriminate|].
  intros _. now apply Nat.eqb_neq.
Qed.

(** X14. A locator of a lower tier is returned only when the higher
    tiers failed: with a score below 100 the id of the element is of no
    use, with a score below 95 neither is its name attribute, and with a
    score below 70 the element is not the only one of its tag. *)
Theorem lower_tier_means_higher_failed :
  forall (B : Browser) (el : NodeRef) (doc : Document) (loc : Locator),
    generateLocator B el doc = Returns loc ->
    (score loc < 100 -> idUnusable B el doc)
    /\ (score loc < 95 -> nameUnusable B el doc)
    /\ (score loc < 70 ->
        List.length
          (DOM.getElementsByTagName doc (JS.toLowerCase (DOM.tagName doc el)))
        <> 1).
Proof.
  intros B el doc loc H. unfold generateLocator in H.
  rewrite firstOf_app in H. unfold directStrategies in H. cbn [firstOf] in H.
  destruct (idStrategy B el doc) as [[l|]|e] eqn:I; [| |discriminate].
  { inv H. destruct (idStrategy_tier B _ _ _ I) as [_ ->]. repeat split; lia. }
  pose proof (idStrategy_none B _ _ I) as U1.
  destruct (nameStrategy B el doc) as [[l|]|e] eqn:N; [| |discriminate].
  { inv H. destruct (nameStrategy_tier B _ _ _ N) as [_ ->].
    repeat split; try lia. intros _. exact U1. }
  pose proof (nameStrategy_none B _ _ N) as U2.
  destruct (linkTextStrategy B el doc) as [[l|]|e] eqn:S3; [| |discriminate].
  { inv H. destruct (linkTextStrategy_tier B _ _ _ S3) as [_ ->].
    repeat split; try lia; intros _; assumption. }
  destruct (partialLinkTextStrategy B el doc) as [[l|]|e] eqn:S4;
    [| |discriminate].
  { inv H. destruct (partialLinkTextStrategy_tier B _ _ _ S4) as [_ ->].
    repeat split; try lia; intros _; assumption. }
  destruct (cssStrategy B el doc) as [[l|]|e] eqn:S5; [| |discriminate].
  { inv H. destruct (cssStrategyLoop_tier B _ _ _ _ S5) as [_ ->].
    repeat split; try lia; intros _; assumption. }
  destruct (classStrategy B el doc) as [[l|]|e] eqn:S6; [| |discriminate].
  { inv H. destruct (classStrategy_tier B _ _ _ S6) as [_ ->].
    repeat split; try lia; intros _; assumption. }
  destruct (tagNameStrategy el doc) as [[l|]|e] eqn:S7; [| |discriminate].
  { inv H. destruct (tagNameStrategy_tier _ _ _ S7) as [_ ->].
    repeat split; try lia; intros _; assumption. }
  pose proof (tagNameStrategy_none _ _ S7) as U3.
  repeat split; intros _; assumption.
Qed.

Lemma lower_tier_witness :
  let doc := parseFromString Mini.browser Pages.twoButtons in
  exists loc,
    generateLocator Mini.browser [1; 1] doc = Returns loc
    /\ score loc = 55
    /\ idUnusable Mini.browser [1; 1] doc
    /\ List.length (DOM.getElementsByTagName doc "button") <> 1.
Proof.
  intros doc.
  eexists. split; [vm_compute; reflexivity|]. split; [reflexivity|].
  destruct (lower_tier_means_higher_failed Mini.browser [1; 1] doc _ eq_refl)
    as [U1 [_ U3]].
  split; [apply U1; cbn; lia|]. apply U3. cbn. lia.
Defined.

(* ================================================================== *)
(** * Further properties: the caller of the analysis *)
(* ================================================================== *)






